(** * mcp-semantic-memory: the memory store, the similarity engine and the
      biography store of [index.js], embedded in Rocq.

    JavaScript numbers are IEEE 754 binary64 values, and so are Rocq's
    primitive floats: every arithmetic step of [cosineSimilarity], of the
    threshold filter, of the sort comparator and of [slice] is modelled on
    [PrimFloat], with the same rounding and the same NaN and infinity
    behaviour as the engine that runs the server.

    The SQLite tables are lists of rows in rowid order (the order of
    [SELECT * FROM memories]); the [user_bio] table holds at most one row.
    The clock ([new Date().toISOString()]) and the embedding model are the
    two things the handlers read from outside: the timestamp is an argument
    of every call and the model is a variable of the section that holds the
    handlers. *)

From Stdlib Require Import Floats ZArith QArith.
From Stdlib Require Import List String Ascii Bool Lia Sorted.
Import ListNotations.

Local Open Scope string_scope.
Local Open Scope list_scope.

(** ** JavaScript values and numbers *)

(** What a statement of the handler body evaluates to: a value, or a thrown
    [Error] with its message (caught by the [try]/[catch] around the
    [switch]). *)
Inductive outcome (A : Type) : Type :=
| Return (a : A)
| Throw (message : string).
Arguments Return {A} a.
Arguments Throw {A} message.

Definition bind {A B : Type} (m : outcome A) (k : A -> outcome B) : outcome B :=
  match m with
  | Return a => k a
  | Throw e => Throw e
  end.

Notation "x <- m ;; k" := (bind m (fun x => k))
  (at level 61, m at next level, right associativity).

(** The values a biography argument can take: the schema's strings and
    arrays of strings, [null], and [undefined] for a property that the
    argument object does not have. *)
Inductive js_value : Type :=
| Undefined
| Null
| Str (s : string)
| Arr (items : list string).

(** [ToBoolean]: what [||] and [if] look at. *)
Definition truthy (v : js_value) : bool :=
  match v with
  | Undefined | Null => false
  | Str s => match s with EmptyString => false | _ => true end
  | Arr _ => true
  end.

(** [a || b] *)
Definition js_or (a b : js_value) : js_value :=
  if truthy a then a else b.

(** [a === b] on the values above, for [b] a string literal. *)
Definition strict_equals_string (v : js_value) (lit : string) : bool :=
  match v with
  | Str s => String.eqb s lit
  | _ => false
  end.

Definition is_null (v : js_value) : bool :=
  match v with Null => true | _ => false end.

Definition is_undefined (v : js_value) : bool :=
  match v with Undefined => true | _ => false end.

Definition Array_isArray (v : js_value) : bool :=
  match v with Arr _ => true | _ => false end.

(** *** [JSON.stringify] on strings and arrays of strings *)

Definition char (n : nat) : string := String (ascii_of_nat n) EmptyString.

Definition hex_digit (n : nat) : string :=
  match n with
  | 0 => "0" | 1 => "1" | 2 => "2" | 3 => "3" | 4 => "4" | 5 => "5"
  | 6 => "6" | 7 => "7" | 8 => "8" | 9 => "9" | 10 => "a" | 11 => "b"
  | 12 => "c" | 13 => "d" | 14 => "e" | _ => "f"
  end%nat.

(** One code unit of [QuoteJSONString]: the quote and the backslash are
    escaped, control characters get their short escape or [\u00xx]. *)
Definition quote_char (c : ascii) : string :=
  let n := nat_of_ascii c in
  if Nat.eqb n 34 then "\" ++ char 34
  else if Nat.eqb n 92 then "\\"
  else if Nat.eqb n 8 then "\b"
  else if Nat.eqb n 9 then "\t"
  else if Nat.eqb n 10 then "\n"
  else if Nat.eqb n 12 then "\f"
  else if Nat.eqb n 13 then "\r"
  else if Nat.ltb n 32 then "\u00" ++ hex_digit (n / 16) ++ hex_digit (n mod 16)
  else String c EmptyString.

Fixpoint quote_chars (s : string) : string :=
  match s with
  | EmptyString => EmptyString
  | String c s' => quote_char c ++ quote_chars s'
  end.

Definition QuoteJSONString (s : string) : string :=
  char 34 ++ quote_chars s ++ char 34.

Fixpoint join_comma (l : list string) : string :=
  match l with
  | [] => EmptyString
  | [x] => x
  | x :: l' => x ++ "," ++ join_comma l'
  end.

(** [JSON.stringify(v)]: a string, or [undefined] for [undefined]. *)
Definition JSON_stringify (v : js_value) : js_value :=
  match v with
  | Undefined => Undefined
  | Null => Str "null"
  | Str s => Str (QuoteJSONString s)
  | Arr items => Str ("[" ++ join_comma (map QuoteJSONString items) ++ "]")
  end.

(** *** Numbers *)

(** The defaults of [search_memory]: the doubles that the literals [5] and
    [0.3] denote. *)
Definition default_n_results : float := 5%float.
Definition default_threshold : float := 0x1.3333333333333p-2%float.

(** [JSON.parse(JSON.stringify(x))] on a number: [NaN] and the infinities are
    written as [null], which every later product reads as [+0]; [-0] is
    written as [0]; every other double is printed with enough digits to be
    read back unchanged. *)
Definition JSON_number (x : float) : float :=
  if is_finite x then (if is_zero x then 0%float else x) else 0%float.

Inductive integer_or_infinity : Type :=
| NegInfinity
| Finite (z : Z)
| PosInfinity.

(** [ToIntegerOrInfinity]: NaN and the zeros to 0, the infinities to
    themselves, every other number truncated towards zero.  A finite double
    is [(-1)^s * m * 2^e]. *)
Definition ToIntegerOrInfinity (x : float) : integer_or_infinity :=
  match Prim2SF x with
  | S754_nan => Finite 0
  | S754_zero _ => Finite 0
  | S754_infinity false => PosInfinity
  | S754_infinity true => NegInfinity
  | S754_finite s m e => Finite (cond_Zopp s (Z.shiftl (Zpos m) e))
  end.

(** ** Arrays *)

Section Arrays.
Context {A : Type}.

(** [l.slice(0, end)]: [k = 0]; a negative [end] counts from the end of the
    array. *)
Definition slice_final (len : Z) (relativeEnd : integer_or_infinity) : Z :=
  match relativeEnd with
  | NegInfinity => 0
  | Finite r => if (r <? 0)%Z then Z.max (len + r) 0 else Z.min r len
  | PosInfinity => len
  end.

Definition slice0 (l : list A) (end_ : float) : list A :=
  let len := Z.of_nat (List.length l) in
  firstn (Z.to_nat (slice_final len (ToIntegerOrInfinity end_))) l.

(** [l.sort(comparefn)].  The sort is stable, and [comparefn(x, y) > 0]
    puts [x] after [y]; a NaN from the comparator counts as [+0].  With a
    comparator that orders the elements consistently the result is the one
    array that is sorted and keeps equal elements in their order, which is
    what inserting from the right builds. *)
Variable comparefn : A -> A -> float.

Fixpoint sort_insert (x : A) (l : list A) : list A :=
  match l with
  | [] => [x]
  | y :: l' =>
      if (0 <? comparefn x y)%float then y :: sort_insert x l' else x :: l
  end.

Definition sort (l : list A) : list A := fold_right sort_insert [] l.
End Arrays.

(** ** The similarity engine *)

Section Cosine.
(** The body of [cosineSimilarity] over an arithmetic given by its
    operations: the facts that only need the shape of the two [reduce]s are
    proved once, for any arithmetic, and the program is the instance on
    doubles. *)
Context {num : Type}.
Variables (zero undefined : num).
Variables (add mul div : num -> num -> num) (sqrt : num -> num).

(** [a.reduce((acc, val, i) => f(acc, val, i), init)], from index [i]. *)
Fixpoint reduce_from (f : num -> num -> nat -> num) (i : nat) (a : list num)
    (acc : num) : num :=
  match a with
  | [] => acc
  | val :: a' => reduce_from f (S i) a' (f acc val i)
  end.

Definition reduce (f : num -> num -> nat -> num) (a : list num) (init : num) : num :=
  reduce_from f 0 a init.

(** [b[i]]: [undefined] past the end, which a product turns into NaN. *)
Definition index (b : list num) (i : nat) : num := nth i b undefined.

(** [(sum, val, i) => sum + val * b[i]] *)
Definition dot_step (b : list num) (sum val : num) (i : nat) : num :=
  add sum (mul val (index b i)).

(** [(sum, val) => sum + val * val] *)
Definition square_step (sum val : num) (_ : nat) : num :=
  add sum (mul val val).

Definition sum_of_squares (a : list num) : num :=
  reduce square_step a zero.

Definition cosine (a b : list num) : num :=
  let dotProduct := reduce (dot_step b) a zero in
  let magA := sqrt (sum_of_squares a) in
  let magB := sqrt (sum_of_squares b) in
  div dotProduct (mul magA magB).
End Cosine.

(** [cosineSimilarity(a, b)] as the server computes it. *)
Definition cosineSimilarity (a b : list float) : float :=
  cosine 0%float nan PrimFloat.add PrimFloat.mul PrimFloat.div PrimFloat.sqrt a b.

(** ** The database *)

(** A row of [memories].  [embedding] and [metadata] are TEXT columns that
    hold JSON; the model keeps, for [embedding], the array that [JSON.parse]
    gives back on the stored text and, for [metadata], the stored text
    itself (NULL is [None]). *)
Module Memory.
Record row : Type := {
  id : string;
  text : string;
  embedding : list float;
  metadata : option string;
  created_at : string;
  updated_at : string
}.
End Memory.

(** The eight columns of [user_bio] that a caller can set. *)
Module Field.
Inductive t : Type :=
| nombre | ocupacion | ubicacion | tecnologias
| herramientas | idiomas | timezone | mascotas.

Definition eqb (f g : t) : bool :=
  match f, g with
  | nombre, nombre | ocupacion, ocupacion | ubicacion, ubicacion
  | tecnologias, tecnologias | herramientas, herramientas
  | idiomas, idiomas | timezone, timezone | mascotas, mascotas => true
  | _, _ => false
  end.

(** [["tecnologias", "herramientas", "idiomas", "mascotas"].includes(field)] *)
Definition is_array (f : t) : bool :=
  match f with
  | tecnologias | herramientas | idiomas | mascotas => true
  | _ => false
  end.
End Field.

(** The row of [user_bio] (its [id] is the constant 1).  A column is NULL
    ([None]) or TEXT. *)
Module Bio.
Record row : Type := {
  nombre : option string;
  ocupacion : option string;
  ubicacion : option string;
  tecnologias : option string;
  herramientas : option string;
  idiomas : option string;
  timezone : option string;
  mascotas : option string;
  created_at : string;
  updated_at : string
}.

Definition get (f : Field.t) (r : row) : option string :=
  match f with
  | Field.nombre => nombre r
  | Field.ocupacion => ocupacion r
  | Field.ubicacion => ubicacion r
  | Field.tecnologias => tecnologias r
  | Field.herramientas => herramientas r
  | Field.idiomas => idiomas r
  | Field.timezone => timezone r
  | Field.mascotas => mascotas r
  end.

(** [UPDATE user_bio SET <field> = ?, updated_at = ? WHERE id = 1] *)
Definition set (f : Field.t) (v : option string) (now : string) (r : row) : row :=
  let pick g := if Field.eqb f g then v else get g r in
  {| nombre := pick Field.nombre;
     ocupacion := pick Field.ocupacion;
     ubicacion := pick Field.ubicacion;
     tecnologias := pick Field.tecnologias;
     herramientas := pick Field.herramientas;
     idiomas := pick Field.idiomas;
     timezone := pick Field.timezone;
     mascotas := pick Field.mascotas;
     created_at := created_at r;
     updated_at := now |}.
End Bio.

(** The argument object of [set_user_bio]: a property that is not there reads
    as [undefined]. *)
Module BioFields.
Record t : Type := {
  nombre : js_value;
  ocupacion : js_value;
  ubicacion : js_value;
  tecnologias : js_value;
  herramientas : js_value;
  idiomas : js_value;
  timezone : js_value;
  mascotas : js_value
}.

Definition get (f : Field.t) (a : t) : js_value :=
  match f with
  | Field.nombre => nombre a
  | Field.ocupacion => ocupacion a
  | Field.ubicacion => ubicacion a
  | Field.tecnologias => tecnologias a
  | Field.herramientas => herramientas a
  | Field.idiomas => idiomas a
  | Field.timezone => timezone a
  | Field.mascotas => mascotas a
  end.

(** [{}] *)
Definition empty : t :=
  {| nombre := Undefined; ocupacion := Undefined; ubicacion := Undefined;
     tecnologias := Undefined; herramientas := Undefined; idiomas := Undefined;
     timezone := Undefined; mascotas := Undefined |}.
End BioFields.

Record database : Type := {
  memories : list Memory.row;
  user_bio : option Bio.row
}.

Definition empty_database : database := {| memories := []; user_bio := None |}.

(** *** Statements on [memories] *)

Definition has_id (id : string) (r : Memory.row) : bool :=
  String.eqb (Memory.id r) id.

(** [SELECT ... FROM memories WHERE id = ?] with [.get(id)]: the first row
    found, or [undefined]. *)
Definition SELECT_memory (id : string) (rows : list Memory.row) : option Memory.row :=
  find (has_id id) rows.

(** [UPDATE memories SET text = ?, embedding = ?, metadata = ?, updated_at = ?
    WHERE id = ?]: the columns that are set, on one row. *)
Definition updated_row (text : string) (embedding : list float)
    (metadata now : string) (r : Memory.row) : Memory.row :=
  {| Memory.id := Memory.id r;
     Memory.text := text;
     Memory.embedding := embedding;
     Memory.metadata := Some metadata;
     Memory.created_at := Memory.created_at r;
     Memory.updated_at := now |}.

Definition UPDATE_memory (text : string) (embedding : list float)
    (metadata now id : string) (rows : list Memory.row) : list Memory.row :=
  map (fun r => if has_id id r then updated_row text embedding metadata now r else r) rows.

(** [INSERT INTO memories (...) VALUES (?, ?, ?, ?, ?, ?)]: the new row gets
    the next rowid; [id] is the primary key, and SQLite refuses a second row
    with the same one. *)
Definition INSERT_memory (r : Memory.row) (rows : list Memory.row)
    : outcome (list Memory.row) :=
  if existsb (has_id (Memory.id r)) rows
  then Throw "UNIQUE constraint failed: memories.id"
  else Return (rows ++ [r]).

(** [DELETE FROM memories WHERE id = ?], with [result.changes]. *)
Definition DELETE_memory (id : string) (rows : list Memory.row)
    : list Memory.row * nat :=
  (filter (fun r => negb (has_id id r)) rows,
   List.length (filter (has_id id) rows)).

(** What the driver (better-sqlite3) binds for one argument of [stmt.run]:
    [null] and [undefined] are bound as NULL and a string as TEXT; an array
    argument is taken for a list of parameters, bound one after the other. *)
Definition bound_values (v : js_value) : list (option string) :=
  match v with
  | Undefined | Null => [None]
  | Str s => [Some s]
  | Arr items => map Some items
  end.

(** [stmt.run(...args)] up to the binding of the parameters: the values
    bound for the arguments, in order, when there is one for each [?] of the
    statement, and the driver's RangeError otherwise. *)
Definition bind_parameters (param_count : nat) (args : list js_value)
    : outcome (list (option string)) :=
  let values := List.concat (map bound_values args) in
  match Nat.compare (List.length values) param_count with
  | Eq => Return values
  | Lt => Throw "Too few parameter values were provided"
  | Gt => Throw "Too many parameter values were provided"
  end.

(** The value bound to the [i]-th [?]. *)
Definition parameter (i : nat) (values : list (option string)) : option string :=
  nth i values None.

(** ** Responses *)

(** An element of [results] in the answer of [search_memory]. *)
Module Result.
Record t : Type := {
  id : string;
  text : string;
  metadata : string;
  similarity : float;
  created_at : string;
  updated_at : string
}.
End Result.

(** The [memory] object in the answer of [get_memory]. *)
Module Found.
Record t : Type := {
  id : string;
  text : string;
  metadata : string;
  created_at : string;
  updated_at : string
}.
End Found.

(** The object each handler returns (before [JSON.stringify] puts it in the
    [content] of the reply). *)
Inductive response : Type :=
| SaveResponse (message id : string)
    (* { success: true, message, id } *)
| SearchResponse (query : string) (results : list Result.t) (message : option string)
    (* { success: true, query, results, message? } *)
| GetResponse (memory : Found.t)
    (* { success: true, memory } *)
| MessageResponse (success : bool) (message : string)
    (* { success, message } *)
| ErrorResponse (error : string).
    (* { success: false, error }, with isError: true *)

Definition success (r : response) : bool :=
  match r with
  | SaveResponse _ _ | SearchResponse _ _ _ | GetResponse _ => true
  | MessageResponse s _ => s
  | ErrorResponse _ => false
  end.

Definition isError (r : response) : bool :=
  match r with ErrorResponse _ => true | _ => false end.

(** [JSON.parse(memory.metadata || "{}")], kept as JSON text. *)
Definition metadata_or_empty (m : option string) : string :=
  match m with
  | Some (String _ _ as s) => s
  | _ => "{}"
  end.

Definition field_name (f : Field.t) : string :=
  match f with
  | Field.nombre => "nombre"
  | Field.ocupacion => "ocupacion"
  | Field.ubicacion => "ubicacion"
  | Field.tecnologias => "tecnologias"
  | Field.herramientas => "herramientas"
  | Field.idiomas => "idiomas"
  | Field.timezone => "timezone"
  | Field.mascotas => "mascotas"
  end.

(** The calls the dispatcher routes, with their arguments as destructured by
    each [case]: an optional argument that is left out is [None].  The
    [field] of [update_user_bio] ranges over the eight names that the schema
    of the tool lists: the handler splices the name it is given into the
    text of its UPDATE statement without looking at it, and what SQLite
    makes of any other text is not part of this model. *)
Inductive tool_call : Type :=
| save_memory_call (id text : string) (metadata : option string)
| search_memory_call (query : string) (n_results threshold : option float)
| get_memory_call (id : string)
| delete_memory_call (id : string)
| set_user_bio_call (bioFields : BioFields.t)
| update_user_bio_call (field : Field.t) (value : js_value).

(** ** The handlers *)

(** [existing?.column] for a column of [user_bio]. *)
Definition existing_column (existing : option Bio.row) (f : Field.t) : js_value :=
  match existing with
  | None => Undefined
  | Some r => match Bio.get f r with
              | None => Null
              | Some s => Str s
              end
  end.

(** The helper of [set_user_bio] for the four text fields. *)
Definition processValue (value existingValue : js_value) : js_value :=
  if is_null value || strict_equals_string value "null" then Null
  else if is_undefined value then js_or existingValue Null
  else if Array_isArray value then JSON_stringify value
  else value.

(** The conditional expression of [set_user_bio] for the four array fields. *)
Definition processArray (value existingValue : js_value) : js_value :=
  if is_null value || strict_equals_string value "null" then Null
  else if negb (is_undefined value) then JSON_stringify value
  else js_or existingValue Null.

(** The value [set_user_bio] prepares for a column. *)
Definition prepared (bioFields : BioFields.t) (existing : option Bio.row)
    (f : Field.t) : js_value :=
  if Field.is_array f
  then processArray (BioFields.get f bioFields) (existing_column existing f)
  else processValue (BioFields.get f bioFields) (existing_column existing f).

(** The row of a search result for a stored memory. *)
Definition scored (queryEmbedding : list float) (memory : Memory.row) : Result.t :=
  {| Result.id := Memory.id memory;
     Result.text := Memory.text memory;
     Result.metadata := metadata_or_empty (Memory.metadata memory);
     Result.similarity := cosineSimilarity queryEmbedding (Memory.embedding memory);
     Result.created_at := Memory.created_at memory;
     Result.updated_at := Memory.updated_at memory |}.

(** [(a, b) => b.similarity - a.similarity] *)
Definition by_similarity (a b : Result.t) : float :=
  (Result.similarity b - Result.similarity a)%float.

(** The chain [map], [filter], [sort], [slice] of [search_memory]. *)
Definition search_results (queryEmbedding : list float) (allMemories : list Memory.row)
    (n_results threshold : float) : list Result.t :=
  slice0
    (sort by_similarity
       (filter (fun result => (threshold <=? Result.similarity result)%float)
          (map (scored queryEmbedding) allMemories)))
    n_results.

Section Server.
(** [generateEmbedding(text)]: the vector the model gives for a text, or
    the error it throws. *)
Variable generateEmbedding : string -> outcome (list float).

Definition save_memory (id text : string) (metadata : option string)
    (now : string) (db : database) : outcome (response * database) :=
  embedding <- generateEmbedding text ;;
  let embeddingStr := map JSON_number embedding in
  let metadataStr := match metadata with Some m => m | None => "{}" end in
  let existing := SELECT_memory id (memories db) in
  match existing with
  | Some _ =>
      Return (SaveResponse ("Memory updated with ID: " ++ id) id,
              {| memories := UPDATE_memory text embeddingStr metadataStr now id (memories db);
                 user_bio := user_bio db |})
  | None =>
      rows <- INSERT_memory
                {| Memory.id := id;
                   Memory.text := text;
                   Memory.embedding := embeddingStr;
                   Memory.metadata := Some metadataStr;
                   Memory.created_at := now;
                   Memory.updated_at := now |} (memories db) ;;
      Return (SaveResponse ("Memory saved with ID: " ++ id) id,
              {| memories := rows; user_bio := user_bio db |})
  end.

Definition search_memory (query : string) (n_results threshold : option float)
    (db : database) : outcome (response * database) :=
  let n_results := match n_results with Some n => n | None => default_n_results end in
  let threshold := match threshold with Some t => t | None => default_threshold end in
  let allMemories := memories db in
  if Nat.eqb (List.length allMemories) 0 then
    Return (SearchResponse query [] (Some "No memories stored yet"), db)
  else
    queryEmbedding <- generateEmbedding query ;;
    Return (SearchResponse query
              (search_results queryEmbedding allMemories n_results threshold) None,
            db).

Definition get_memory (id : string) (db : database) : outcome (response * database) :=
  match SELECT_memory id (memories db) with
  | None => Return (MessageResponse false ("Memory with ID " ++ id ++ " not found"), db)
  | Some memory =>
      Return (GetResponse
                {| Found.id := Memory.id memory;
                   Found.text := Memory.text memory;
                   Found.metadata := metadata_or_empty (Memory.metadata memory);
                   Found.created_at := Memory.created_at memory;
                   Found.updated_at := Memory.updated_at memory |},
              db)
  end.

Definition delete_memory (id : string) (db : database) : outcome (response * database) :=
  let '(rows, changes) := DELETE_memory id (memories db) in
  let db' := {| memories := rows; user_bio := user_bio db |} in
  if Nat.eqb changes 0
  then Return (MessageResponse false ("Memory with ID " ++ id ++ " not found"), db')
  else Return (MessageResponse true ("Memory with ID " ++ id ++ " deleted"), db').

(** The arguments of [stmt.run] end with [now]: when there is a value for
    each [?], the columns take the values bound before it, by position. *)
Definition set_user_bio (bioFields : BioFields.t) (now : string) (db : database)
    : outcome (response * database) :=
  let existing := user_bio db in
  let value := prepared bioFields existing in
  let fields :=
    [value Field.nombre; value Field.ocupacion; value Field.ubicacion;
     value Field.tecnologias; value Field.herramientas; value Field.idiomas;
     value Field.timezone; value Field.mascotas] in
  let row values created :=
    {| Bio.nombre := parameter 0 values; Bio.ocupacion := parameter 1 values;
       Bio.ubicacion := parameter 2 values; Bio.tecnologias := parameter 3 values;
       Bio.herramientas := parameter 4 values; Bio.idiomas := parameter 5 values;
       Bio.timezone := parameter 6 values; Bio.mascotas := parameter 7 values;
       Bio.created_at := created; Bio.updated_at := now |} in
  match existing with
  | Some old =>
      values <- bind_parameters 9 (fields ++ [Str now]) ;;
      Return (MessageResponse true "User biography updated",
              {| memories := memories db;
                 user_bio := Some (row values (Bio.created_at old)) |})
  | None =>
      values <- bind_parameters 10 (fields ++ [Str now; Str now]) ;;
      Return (MessageResponse true "User biography created",
              {| memories := memories db; user_bio := Some (row values now) |})
  end.

Definition update_user_bio (field : Field.t) (value : js_value) (now : string)
    (db : database) : outcome (response * database) :=
  match user_bio db with
  | None =>
      Return (MessageResponse false
                "No user biography exists. Use set_user_bio to create one first.", db)
  | Some existing =>
      let processedValue :=
        if Field.is_array field then JSON_stringify value else value in
      values <- bind_parameters 2 [processedValue; Str now] ;;
      Return (MessageResponse true ("Updated field: " ++ field_name field),
              {| memories := memories db;
                 user_bio := Some (Bio.set field (parameter 0 values) now existing) |})
  end.

(** The [switch] of the request handler. *)
Definition dispatch (call : tool_call) (now : string) (db : database)
    : outcome (response * database) :=
  match call with
  | save_memory_call id text metadata => save_memory id text metadata now db
  | search_memory_call query n_results threshold => search_memory query n_results threshold db
  | get_memory_call id => get_memory id db
  | delete_memory_call id => delete_memory id db
  | set_user_bio_call bioFields => set_user_bio bioFields now db
  | update_user_bio_call field value => update_user_bio field value now db
  end.

(** The handler of [CallToolRequestSchema]: the [switch] inside
    [try]/[catch].  Every write is the last statement of its handler, so a
    thrown error leaves the database as it was. *)
Definition CallToolRequest (call : tool_call) (now : string) (db : database)
    : response * database :=
  match dispatch call now db with
  | Return r => r
  | Throw message => (ErrorResponse message, db)
  end.
End Server.

(** ** Vocabulary of the properties *)

(** What a call answers and the database it leaves. *)
Definition reply (embed : string -> outcome (list float)) (call : tool_call)
    (now : string) (db : database) : response :=
  fst (CallToolRequest embed call now db).

Definition after (embed : string -> outcome (list float)) (call : tool_call)
    (now : string) (db : database) : database :=
  snd (CallToolRequest embed call now db).

(** The rows of [memories] that carry an id. *)
Definition rows_with_id (id : string) (db : database) : list Memory.row :=
  filter (has_id id) (memories db).

(** [id TEXT PRIMARY KEY]: no two rows of [memories] share an id. *)
Definition primary_key (db : database) : Prop :=
  NoDup (map Memory.id (memories db)).

(** The results of an answer of [search_memory] ([[]] for any other answer). *)
Definition results_of (r : response) : list Result.t :=
  match r with
  | SearchResponse _ results _ => results
  | _ => []
  end.

(** Order on results: the score does not go up. *)
Definition non_increasing (r1 r2 : Result.t) : Prop :=
  (Result.similarity r2 <=? Result.similarity r1)%float = true.

(** Order on results: the score does not go up and, at equal scores, neither
    does [updated_at]. *)
Definition by_score_then_recency (r1 r2 : Result.t) : Prop :=
  non_increasing r1 r2 /\
  ((Result.similarity r1 =? Result.similarity r2)%float = true ->
   String.leb (Result.updated_at r2) (Result.updated_at r1) = true).

(** The results whose score equals [s]. *)
Definition tied (s : float) (r : Result.t) : bool :=
  (Result.similarity r =? s)%float.

(** The exact value of a finite double, [(-1)^s * m * 2^e], as a rational. *)
Definition float_value (x : float) : Q :=
  match Prim2SF x with
  | S754_finite s m e =>
      if (0 <=? e)%Z then inject_Z (cond_Zopp s (Zpos m * 2 ^ e))
      else Qmake (cond_Zopp s (Zpos m)) (Z.to_pos (2 ^ (- e)))
  | _ => 0%Q
  end.

(** [count <= n] for a count and a JavaScript number. *)
Definition at_most (count : nat) (n : float) : Prop :=
  match Prim2SF n with
  | S754_nan => False
  | S754_infinity s => s = false
  | _ => (inject_Z (Z.of_nat count) <= float_value n)%Q
  end.

(** The arguments of [search_memory] after its defaults. *)
Definition n_results_or_default (n_results : option float) : float :=
  match n_results with Some n => n | None => default_n_results end.

Definition threshold_or_default (threshold : option float) : float :=
  match threshold with Some t => t | None => default_threshold end.

(** The sane ranges: [limit >= 1] and [0 <= minScore <= 1]. *)
Definition out_of_range (n_results threshold : float) : bool :=
  (n_results <? 1)%float || (threshold <? 0)%float || (1 <? threshold)%float.

Definition clamp_n_results (n : float) : float :=
  if (n <? 1)%float then 1%float else n.

Definition clamp_threshold (t : float) : float :=
  if (t <? 0)%float then 0%float else if (1 <? t)%float then 1%float else t.

(** The stored memories that meet the threshold for a query vector. *)
Definition candidates (queryEmbedding : list float) (threshold : float)
    (rows : list Memory.row) : list Memory.row :=
  filter (fun m => (threshold <=? cosineSimilarity queryEmbedding (Memory.embedding m))%float)
    rows.

(** The text a supplied value is stored as: array columns hold the JSON text
    of the value, text columns the string itself (the JSON text of an
    array). *)
Definition stored_text (f : Field.t) (value : js_value) : option string :=
  match (if Field.is_array f || Array_isArray value
         then JSON_stringify value else value) with
  | Str s => Some s
  | _ => None
  end.

(** What a column held before the call ([None] also when there was no
    record). *)
Definition previous (existing : option Bio.row) (f : Field.t) : option string :=
  match existing with
  | Some r => Bio.get f r
  | None => None
  end.

(** The three-way rule: [null] clears, a missing property keeps, any other
    value replaces. *)
Definition three_way_rule (f : Field.t) (existing : option Bio.row)
    (value : js_value) : option string :=
  match value with
  | Null => None
  | Undefined => previous existing f
  | _ => stored_text f value
  end.

(** The rule with the string ["null"] as a second way to clear. *)
Definition clearing_rule (f : Field.t) (existing : option Bio.row)
    (value : js_value) : option string :=
  if strict_equals_string value "null" then None
  else three_way_rule f existing value.

(** [bioFields] with one property replaced. *)
Definition with_field (f : Field.t) (v : js_value) (a : BioFields.t) : BioFields.t :=
  let pick g := if Field.eqb f g then v else BioFields.get g a in
  {| BioFields.nombre := pick Field.nombre;
     BioFields.ocupacion := pick Field.ocupacion;
     BioFields.ubicacion := pick Field.ubicacion;
     BioFields.tecnologias := pick Field.tecnologias;
     BioFields.herramientas := pick Field.herramientas;
     BioFields.idiomas := pick Field.idiomas;
     BioFields.timezone := pick Field.timezone;
     BioFields.mascotas := pick Field.mascotas |}.

(** The column value that [set_user_bio] binds for a field. *)
Definition written (bioFields : BioFields.t) (existing : option Bio.row)
    (f : Field.t) : option string :=
  match prepared bioFields existing f with
  | Str s => Some s
  | _ => None
  end.

(** [x] is within [tolerance] of [y]: [y - tolerance <= x <= y + tolerance],
    with the comparisons of doubles (false when [x] is NaN). *)
Definition within (tolerance x y : float) : bool :=
  ((y - tolerance <=? x) && (x <=? y + tolerance))%float.

(** A stand-in for the embedding model in the examples: two coordinates read
    off the text, and a failure on the empty text. *)
Definition example_embedder (text : string) : outcome (list float) :=
  match text with
  | EmptyString => Throw "empty input"
  | String c _ =>
      if Ascii.eqb c "a" then Return [1%float; 0%float]
      else if Ascii.eqb c "b" then Return [0%float; 1%float]
      else Return [0x1.3333333333333p-1%float; 0x1.999999999999ap-1%float]
  end.

(** Example stores, built by the server from the empty database. *)
Definition two_apples : database :=
  after example_embedder (save_memory_call "n2" "apple" None) "2024-10-29T10:00:00.000Z"
    (after example_embedder (save_memory_call "n1" "apple" None) "2024-10-28T10:00:00.000Z"
       empty_database).

Definition fruit_store : database :=
  after example_embedder (save_memory_call "n3" "cherry" None) "2024-10-30T10:00:00.000Z"
    (after example_embedder (save_memory_call "n2" "banana" None) "2024-10-29T10:00:00.000Z"
       (after example_embedder (save_memory_call "n1" "apple" None) "2024-10-28T10:00:00.000Z"
          empty_database)).

(** Example biographies, built by the server from the empty database. *)
Definition only (f : Field.t) (v : js_value) : BioFields.t :=
  with_field f v BioFields.empty.

Definition bio_ana : database :=
  after example_embedder (set_user_bio_call (only Field.nombre (Str "Ana")))
    "2024-10-28T10:00:00.000Z" empty_database.

Definition bio_blank_name : database :=
  after example_embedder (set_user_bio_call (only Field.nombre (Str EmptyString)))
    "2024-10-28T10:00:00.000Z" empty_database.

(** [l1] is [l2] with some elements left out: the elements of [l1] come in
    the order they have in [l2]. *)
Inductive subsequence {A : Type} : list A -> list A -> Prop :=
| sub_nil : forall l, subsequence [] l
| sub_take : forall x l1 l2, subsequence l1 l2 -> subsequence (x :: l1) (x :: l2)
| sub_skip : forall x l1 l2, subsequence l1 l2 -> subsequence l1 (x :: l2).

(** A result whose score is a number. *)
Definition scored_number (r : Result.t) : Prop :=
  is_nan (Result.similarity r) = false.

(** *** Doubles as [SpecFloat] describes them *)

(** The exponent of the smallest subnormal double. *)
Abbreviation emin := (-1074)%Z.

(** A finite double of sign [s], or the infinity of that sign. *)
Definition SFsigned (s : bool) (x : spec_float) : Prop :=
  (exists m e, x = S754_finite s m e) \/ x = S754_infinity s.

(** The rank of a double: [m * 2^(e - emin)] with its sign for a finite
    one, and a power of two above every finite rank for the infinities. *)
Definition SFrank (x : spec_float) : Z :=
  match x with
  | S754_zero _ => 0
  | S754_infinity s => cond_Zopp s (2 ^ 2098)
  | S754_nan => 0
  | S754_finite s m e => cond_Zopp s (Zpos m * 2 ^ (e - emin))
  end%Z.

Definition SFis_nan (x : spec_float) : bool :=
  match x with S754_nan => true | _ => false end.

Definition rank (x : float) : Z := SFrank (Prim2SF x).

(** What a record of [SpecFloat]'s rounding says of the integer [mx] after
    [k] right shifts: its mantissa is [mx / 2^k], and its round and sticky
    bits place the bits shifted out, [mx mod 2^k], against half of [2^k]. *)
Definition located (mx k : Z) (mrs : shr_record) : Prop :=
  (shr_m mrs = mx / 2 ^ k /\
   match loc_of_shr_record mrs with
   | loc_Exact => mx mod 2 ^ k = 0
   | loc_Inexact c => mx mod 2 ^ k <> 0 /\ (2 * (mx mod 2 ^ k) ?= 2 ^ k) = c
   end)%Z.

(** ** The two tools that only read *)

(** *** [list_all_memories] *)

(** An element of [memories] in the answer of [list_all_memories]. *)
Module Listed.
Record t : Type := {
  id : string;
  metadata : string;
  preview : string;
  created_at : string;
  updated_at : string
}.
End Listed.

(** The answer of [list_all_memories]: [{ success: true, count, memories }]. *)
Module Listing.
Record t : Type := {
  count : nat;
  memories : list Listed.t
}.
End Listing.

(** [m.text.substring(0, 100) + (m.text.length > 100 ? "..." : "")] *)
Definition preview_of (text : string) : string :=
  substring 0 100 text
  ++ (if Nat.ltb 100 (String.length text) then "..." else EmptyString).

Definition listed (m : Memory.row) : Listed.t :=
  {| Listed.id := Memory.id m;
     Listed.metadata := metadata_or_empty (Memory.metadata m);
     Listed.preview := preview_of (Memory.text m);
     Listed.created_at := Memory.created_at m;
     Listed.updated_at := Memory.updated_at m |}.

Section ListAll.
(** [SELECT * FROM memories ORDER BY updated_at DESC]: the rows as the
    database engine orders them (the order of rows with equal [updated_at]
    is the engine's choice). *)
Variable ORDER_BY_updated_at_DESC : list Memory.row -> list Memory.row.

Definition list_all_memories (db : database) : Listing.t :=
  let memories := ORDER_BY_updated_at_DESC (memories db) in
  {| Listing.count := List.length memories;
     Listing.memories := map listed memories |}.
End ListAll.

(** *** [get_user_bio] *)

(** The [bioData] object. *)
Module BioData.
Record t : Type := {
  nombre : js_value;
  ocupacion : js_value;
  ubicacion : js_value;
  tecnologias : js_value;
  herramientas : js_value;
  idiomas : js_value;
  timezone : js_value;
  mascotas : js_value;
  created_at : string;
  updated_at : string
}.

Definition get (f : Field.t) (b : t) : js_value :=
  match f with
  | Field.nombre => nombre b
  | Field.ocupacion => ocupacion b
  | Field.ubicacion => ubicacion b
  | Field.tecnologias => tecnologias b
  | Field.herramientas => herramientas b
  | Field.idiomas => idiomas b
  | Field.timezone => timezone b
  | Field.mascotas => mascotas b
  end.
End BioData.

(** The answers of [get_user_bio]: [{ success: true, bio: null, message }],
    [{ success: true, bio }], and the answer of the [catch]. *)
Inductive bio_reply : Type :=
| bio_null (message : string)
| bio_data (bio : BioData.t)
| bio_error (error : string).

(** [bio.column]: [null] or the text. *)
Definition column_value (c : option string) : js_value :=
  match c with
  | None => Null
  | Some s => Str s
  end.

Section GetBio.
(** [JSON.parse(text)]: the value, or the [SyntaxError] it throws. *)
Variable JSON_parse : string -> outcome js_value.

(** [bio.column ? JSON.parse(bio.column) : null] *)
Definition parsed_column (c : option string) : outcome js_value :=
  match c with
  | Some s => if truthy (Str s) then JSON_parse s else Return Null
  | None => Return Null
  end.

Definition get_user_bio (db : database) : outcome bio_reply :=
  match user_bio db with
  | None => Return (bio_null "No user biography set yet")
  | Some bio =>
      tecnologias <- parsed_column (Bio.tecnologias bio) ;;
      herramientas <- parsed_column (Bio.herramientas bio) ;;
      idiomas <- parsed_column (Bio.idiomas bio) ;;
      mascotas <- parsed_column (Bio.mascotas bio) ;;
      Return (bio_data
                {| BioData.nombre := column_value (Bio.nombre bio);
                   BioData.ocupacion := column_value (Bio.ocupacion bio);
                   BioData.ubicacion := column_value (Bio.ubicacion bio);
                   BioData.tecnologias := tecnologias;
                   BioData.herramientas := herramientas;
                   BioData.idiomas := idiomas;
                   BioData.timezone := column_value (Bio.timezone bio);
                   BioData.mascotas := mascotas;
                   BioData.created_at := Bio.created_at bio;
                   BioData.updated_at := Bio.updated_at bio |})
  end.

(** [get_user_bio] inside the [try]/[catch] of the request handler. *)
Definition get_user_bio_reply (db : database) : bio_reply :=
  match get_user_bio db with
  | Return r => r
  | Throw message => bio_error message
  end.
End GetBio.

(** The biography arguments that the schema of [set_user_bio] allows: strings
    for the text fields and arrays of strings for the array fields, [null]
    or nothing for any of them. *)
Definition schema_typed (a : BioFields.t) : Prop :=
  forall f,
    match BioFields.get f a with
    | Undefined | Null => True
    | Str _ => Field.is_array f = false
    | Arr _ => Field.is_array f = true
    end.

(** What [get_user_bio] gives back for a value given to [set_user_bio] on a
    new record: nothing given, [null] and the string ["null"] read as
    [null]. *)
Definition read_back (v : js_value) : js_value :=
  if is_null v || strict_equals_string v "null" || is_undefined v then Null else v.

(** The text of [JSON.stringify(v)]. *)
Definition json_text (v : js_value) : string :=
  match JSON_stringify v with
  | Str s => s
  | _ => EmptyString
  end.

(** ** Sessions *)

(** The database after a sequence of calls, each with the time at which it
    is handled. *)
Fixpoint run (embed : string -> outcome (list float))
    (calls : list (tool_call * string)) (db : database) : database :=
  match calls with
  | [] => db
  | (call, now) :: rest => run embed rest (after embed call now db)
  end.

(** Every number of every stored embedding is finite. *)
Definition finite_embeddings (db : database) : Prop :=
  Forall (fun m => Forall (fun x => is_finite x = true) (Memory.embedding m)) (memories db).

(** A double that is a zero or NaN. *)
Definition zero_or_nan (x : float) : Prop :=
  (exists s, Prim2SF x = S754_zero s) \/ Prim2SF x = S754_nan.

(** * Properties *)

(** ** Doubles: order and subtraction

    The primitive operations are specified by [SpecFloat].  A double that is
    not NaN has a rank, an integer that grows with it ([m * 2^(e + 1074)] for
    a finite one); comparisons are comparisons of ranks, and the sign of a
    rounded difference is the sign of the difference of the ranks, because
    rounding never takes a difference that is not zero to zero. *)

Section Doubles.
Local Open Scope Z_scope.

Lemma fexp_ge_emin e : emin <= fexp prec emax e.
Proof. unfold fexp, SpecFloat.emin, prec, emax. lia. Qed.

Lemma fexp_eq e : fexp prec emax e = Z.max (e - 53) emin.
Proof. reflexivity. Qed.

Lemma digits2_pos_bounds m :
  2 ^ (Zpos (digits2_pos m) - 1) <= Zpos m < 2 ^ Zpos (digits2_pos m).
Proof.
  induction m as [m IH|m IH|]; cbn [digits2_pos].
  - rewrite Pos2Z.inj_succ, Z.pow_succ_r by lia.
    replace (Z.succ (Zpos (digits2_pos m)) - 1) with (Z.succ (Zpos (digits2_pos m) - 1)) by lia.
    rewrite Z.pow_succ_r by lia. lia.
  - rewrite Pos2Z.inj_succ, Z.pow_succ_r by lia.
    replace (Z.succ (Zpos (digits2_pos m)) - 1) with (Z.succ (Zpos (digits2_pos m) - 1)) by lia.
    rewrite Z.pow_succ_r by lia. lia.
  - cbn. lia.
Qed.

Lemma shr_1_m mrs : 0 <= shr_m mrs -> shr_m (shr_1 mrs) = Z.div2 (shr_m mrs).
Proof. destruct mrs as [[|[p|p|]|p] r s]; cbn; intros; try reflexivity; lia. Qed.

Lemma iter_shr_1_m p : forall mrs, 0 <= shr_m mrs ->
  shr_m (SpecFloat.iter_pos shr_1 p mrs) = Z.shiftr (shr_m mrs) (Zpos p).
Proof.
  assert (D : forall a, 0 <= a -> Z.div2 a = Z.shiftr a 1) by (intros; now rewrite Z.div2_spec).
  assert (N : forall a n, 0 <= a -> 0 <= Z.shiftr a n) by (intros; now apply Z.shiftr_nonneg).
  induction p as [p IH|p IH|]; intros mrs Hm; cbn [SpecFloat.iter_pos].
  - rewrite IH, IH, shr_1_m, D, !Z.shiftr_shiftr by
      (try lia; rewrite ?IH, ?shr_1_m, ?D by (rewrite ?shr_1_m, ?D by lia; auto); auto).
    f_equal. lia.
  - rewrite IH, IH, !Z.shiftr_shiftr by (try lia; rewrite ?IH by auto; auto).
    f_equal. lia.
  - rewrite shr_1_m, D by lia. reflexivity.
Qed.

Lemma shr_fexp_pos m e l :
  0 < m -> emin <= e ->
  0 < shr_m (fst (shr_fexp prec emax m e l)) /\ emin <= snd (shr_fexp prec emax m e l).
Proof.
  intros Hm He. unfold shr_fexp, shr.
  assert (Hrec : shr_m (shr_record_of_loc m l) = m) by (destruct l as [|[]]; reflexivity).
  destruct m as [|m|m]; try lia. cbn [Zdigits2].
  rewrite fexp_eq.
  destruct (Z.max (Zpos (digits2_pos m) + e - 53) emin - e) as [|n|n] eqn:Hn; cbn [fst snd];
    rewrite ?Hrec; try (split; lia).
  rewrite iter_shr_1_m by (rewrite Hrec; lia). rewrite Hrec.
  split; [|lia].
  rewrite Z.shiftr_div_pow2 by lia.
  pose proof (digits2_pos_bounds m) as [Hlo _].
  assert (Hle : Zpos n <= Zpos (digits2_pos m) - 1) by lia.
  assert (2 ^ Zpos n <= 2 ^ (Zpos (digits2_pos m) - 1)) by (apply Z.pow_le_mono_r; lia).
  apply Z.div_str_pos. lia.
Qed.

Lemma round_nearest_even_pos m l : 0 < m -> 0 < round_nearest_even m l.
Proof. destruct l as [|[]]; cbn; try destruct (Z.even m); lia. Qed.

Lemma binary_round_aux_signed s m e l :
  0 < m -> emin <= e -> SFsigned s (binary_round_aux prec emax s m e l).
Proof.
  intros Hm He. unfold binary_round_aux.
  pose proof (shr_fexp_pos m e l Hm He) as [H1 H2].
  destruct (shr_fexp prec emax m e l) as [mrs' e']. cbn [fst snd] in H1, H2.
  pose proof (shr_fexp_pos _ e' loc_Exact
                (round_nearest_even_pos _ (loc_of_shr_record mrs') H1) H2) as [H3 _].
  destruct (shr_fexp prec emax _ e' loc_Exact) as [mrs'' e'']. cbn [fst] in H3.
  destruct (shr_m mrs'') as [|q|q]; try lia.
  destruct (Z.leb e'' (emax - prec)); [left; eauto | now right].
Qed.

Lemma binary_round_signed s m e :
  emin <= e -> SFsigned s (binary_round prec emax s m e).
Proof.
  intros He. unfold binary_round.
  pose proof (fexp_ge_emin (Zpos (digits2_pos m) + e)) as Hf.
  set (f := fexp prec emax (Zpos (digits2_pos m) + e)) in *.
  destruct (shl_align m e f) as [mz ez] eqn:Hs.
  apply binary_round_aux_signed; [lia|].
  unfold shl_align in Hs.
  destruct (f - e); injection Hs as <- <-; lia.
Qed.

Lemma valid_finite_bounds s m e :
  valid_binary (S754_finite s m e) = true ->
  emin <= e <= 971 /\ Zpos (digits2_pos m) <= 53 /\ (emin < e -> Zpos (digits2_pos m) = 53).
Proof.
  unfold SpecFloat.valid_binary, SpecFloat.bounded, SpecFloat.canonical_mantissa.
  rewrite fexp_eq. unfold emax, prec.
  intros H. apply andb_prop in H as [H1 H2].
  apply Z.eqb_eq in H1. apply Z.leb_le in H2. lia.
Qed.

Lemma finite_rank_bounds s m e :
  valid_binary (S754_finite s m e) = true ->
  0 < Zpos m * 2 ^ (e - emin) < 2 ^ 2098.
Proof.
  intros H. apply valid_finite_bounds in H as (He & Hd & _).
  pose proof (digits2_pos_bounds m) as [_ Hm].
  assert (0 < 2 ^ (e - emin)) by (apply Z.pow_pos_nonneg; lia).
  split; [lia|].
  assert (2 ^ Zpos (digits2_pos m) <= 2 ^ 53) by (apply Z.pow_le_mono_r; lia).
  assert (2 ^ (e - emin) <= 2 ^ 2045) by (apply Z.pow_le_mono_r; lia).
  replace (2 ^ 2098) with (2 ^ 53 * 2 ^ 2045) by (rewrite <- Z.pow_add_r by lia; reflexivity).
  nia.
Qed.

Lemma finite_rank_lt m1 e1 m2 e2 :
  valid_binary (S754_finite false m1 e1) = true ->
  valid_binary (S754_finite false m2 e2) = true ->
  e1 < e2 -> Zpos m1 * 2 ^ (e1 - emin) < Zpos m2 * 2 ^ (e2 - emin).
Proof.
  intros H1 H2 Hlt.
  apply valid_finite_bounds in H1 as (He1 & Hd1 & _).
  apply valid_finite_bounds in H2 as (He2 & _ & Hd2).
  pose proof (digits2_pos_bounds m1) as [_ Hm1].
  pose proof (digits2_pos_bounds m2) as [Hm2 _].
  rewrite Hd2 in Hm2 by lia.
  assert (2 ^ Zpos (digits2_pos m1) <= 2 ^ 53) by (apply Z.pow_le_mono_r; lia).
  replace (e2 - emin) with ((e1 - emin) + (e2 - e1)) by lia.
  rewrite Z.pow_add_r by lia.
  assert (0 < 2 ^ (e1 - emin)) by (apply Z.pow_pos_nonneg; lia).
  assert (2 ^ 1 <= 2 ^ (e2 - e1)) by (apply Z.pow_le_mono_r; lia).
  change (2 ^ 1) with 2 in *. change (2 ^ (53 - 1)) with (2 ^ 52) in Hm2.
  assert (E : 2 ^ 53 = 2 * 2 ^ 52) by reflexivity.
  set (P := 2 ^ (e1 - emin)) in *. set (Q := 2 ^ (e2 - e1)) in *.
  assert (Zpos m1 * P < 2 ^ 53 * P) by (apply Z.mul_lt_mono_pos_r; lia).
  assert (2 ^ 53 * P <= Zpos m2 * Q * P).
  { apply Z.mul_le_mono_nonneg_r; [lia|]. rewrite E. nia. }
  lia.
Qed.

Lemma finite_compare_rank m1 e1 m2 e2 :
  valid_binary (S754_finite false m1 e1) = true ->
  valid_binary (S754_finite false m2 e2) = true ->
  match e1 ?= e2 with
  | Lt => Lt
  | Gt => Gt
  | Eq => Pos.compare_cont Eq m1 m2
  end = (Zpos m1 * 2 ^ (e1 - emin) ?= Zpos m2 * 2 ^ (e2 - emin)).
Proof.
  intros V1 V2. symmetry.
  destruct (Z.compare_spec e1 e2) as [E|L|G].
  - subst e2. pose proof (valid_finite_bounds _ _ _ V1) as (He & _).
    assert (0 < 2 ^ (e1 - emin)) by (apply Z.pow_pos_nonneg; lia).
    rewrite <- Zmult_compare_compat_r by lia.
    reflexivity.
  - apply Z.compare_lt_iff. now apply finite_rank_lt.
  - apply Z.compare_gt_iff. now apply finite_rank_lt.
Qed.

Lemma SFcompare_rank x y :
  valid_binary x = true -> valid_binary y = true ->
  SFis_nan x = false -> SFis_nan y = false ->
  SFcompare x y = Some (SFrank x ?= SFrank y).
Proof.
  intros Vx Vy Nx Ny.
  assert (P : 0 < 2 ^ 2098) by (apply Z.pow_pos_nonneg; lia).
  destruct x as [sx|sx| |sx mx ex], y as [sy|sy| |sy my ey]; try discriminate;
    try pose proof (finite_rank_bounds _ _ _ Vx) as Bx;
    try pose proof (finite_rank_bounds _ _ _ Vy) as By;
    cbn [SFcompare SFrank]; f_equal.
  all: try (destruct sx; cbn [cond_Zopp]; symmetry;
            first [apply Z.compare_eq_iff | apply Z.compare_lt_iff | apply Z.compare_gt_iff]; lia).
  all: try (destruct sy; cbn [cond_Zopp]; symmetry;
            first [apply Z.compare_eq_iff | apply Z.compare_lt_iff | apply Z.compare_gt_iff]; lia).
  all: try (destruct sx, sy; cbn [cond_Zopp]; symmetry;
            first [apply Z.compare_eq_iff | apply Z.compare_lt_iff | apply Z.compare_gt_iff]; lia).
  pose proof (finite_compare_rank mx ex my ey Vx Vy) as F.
  destruct sx, sy; cbn [cond_Zopp];
    try (symmetry; first [apply Z.compare_lt_iff | apply Z.compare_gt_iff]; lia).
  - rewrite Z.compare_opp, (Z.compare_antisym _ (Zpos my * _)), <- F.
    now destruct (ex ?= ey).
  - exact F.
Qed.

Lemma shl_align_fst m e ez :
  ez <= e -> Zpos (fst (shl_align m e ez)) = Zpos m * 2 ^ (e - ez).
Proof.
  intros H. unfold shl_align.
  destruct (ez - e) as [|d|d] eqn:Hd; cbn [fst]; try lia.
  - replace (e - ez) with 0 by lia. cbn. lia.
  - replace (e - ez) with (Zpos d) by lia.
    clear. induction d as [|d IH] using Pos.peano_ind.
    + cbn. lia.
    + change (PosDef.Pos.iter xO m (Pos.succ d)) with (Pos.iter xO m (Pos.succ d)).
      rewrite Pos.iter_succ, Pos2Z.inj_xO.
      change (PosDef.Pos.iter xO m d) with (Pos.iter xO m d) in IH. rewrite IH.
      rewrite Pos2Z.inj_succ, Z.pow_succ_r by lia. lia.
Qed.

Lemma SFltb_zero_signed s x :
  SFsigned s x -> SFltb (S754_zero false) x = negb s.
Proof. intros [(m & e & ->)| ->]; destruct s; reflexivity. Qed.

Lemma SFsub_sign x y :
  valid_binary x = true -> valid_binary y = true ->
  SFis_nan x = false -> SFis_nan y = false ->
  SFltb (S754_zero false) (SF64sub y x) = (SFrank x <? SFrank y).
Proof.
  intros Vx Vy Nx Ny.
  assert (P : 0 < 2 ^ 2098) by (apply Z.pow_pos_nonneg; lia).
  destruct x as [sx|sx| |sx mx ex], y as [sy|sy| |sy my ey]; try discriminate;
    try pose proof (finite_rank_bounds _ _ _ Vx) as Bx;
    try pose proof (finite_rank_bounds _ _ _ Vy) as By;
    try pose proof (valid_finite_bounds _ _ _ Vx) as (Ex & _);
    try pose proof (valid_finite_bounds _ _ _ Vy) as (Ey & _);
    unfold SF64sub; cbn [SFsub SFrank].
  all: try (destruct sx, sy; cbn [SFltb SFcompare cond_Zopp negb] in *; symmetry;
            first [apply Z.ltb_lt; lia | apply Z.ltb_ge; lia]).
  all: try (destruct sx; cbn [SFltb SFcompare cond_Zopp negb] in *; symmetry;
            first [apply Z.ltb_lt; lia | apply Z.ltb_ge; lia]).
  all: try (destruct sy; cbn [SFltb SFcompare cond_Zopp negb] in *; symmetry;
            first [apply Z.ltb_lt; lia | apply Z.ltb_ge; lia]).
  set (ez := Z.min ey ex).
  rewrite !shl_align_fst by lia.
  set (Y := cond_Zopp sy (Zpos my * 2 ^ (ey - ez))).
  set (X := cond_Zopp sx (Zpos mx * 2 ^ (ex - ez))).
  assert (K : 0 < 2 ^ (ez - emin)) by (apply Z.pow_pos_nonneg; lia).
  assert (RY : cond_Zopp sy (Zpos my * 2 ^ (ey - emin)) = Y * 2 ^ (ez - emin)).
  { unfold Y. replace (ey - emin) with ((ey - ez) + (ez - emin)) by lia.
    rewrite Z.pow_add_r by lia. destruct sy; cbn [cond_Zopp]; lia. }
  assert (RX : cond_Zopp sx (Zpos mx * 2 ^ (ex - emin)) = X * 2 ^ (ez - emin)).
  { unfold X. replace (ex - emin) with ((ex - ez) + (ez - emin)) by lia.
    rewrite Z.pow_add_r by lia. destruct sx; cbn [cond_Zopp]; lia. }
  rewrite RX, RY.
  assert (Hez : emin <= ez) by lia.
  unfold binary_normalize.
  destruct (Y - X) as [|d|d] eqn:HD.
  - cbn. symmetry. apply Z.ltb_ge. nia.
  - rewrite (SFltb_zero_signed false) by (now apply binary_round_signed).
    symmetry. apply Z.ltb_lt. nia.
  - rewrite (SFltb_zero_signed true) by (now apply binary_round_signed).
    symmetry. apply Z.ltb_ge. nia.
Qed.

(** *** The same facts on primitive floats *)

Lemma is_nan_spec x : is_nan x = SFis_nan (Prim2SF x).
Proof.
  unfold is_nan. rewrite FloatAxioms.eqb_spec. unfold SFeqb.
  destruct (SFis_nan (Prim2SF x)) eqn:N.
  - destruct (Prim2SF x); try discriminate. reflexivity.
  - rewrite SFcompare_rank by (auto using Prim2SF_valid).
    now rewrite Z.compare_refl.
Qed.

Lemma compare_rank x y :
  is_nan x = false -> is_nan y = false ->
  SFcompare (Prim2SF x) (Prim2SF y) = Some (rank x ?= rank y).
Proof.
  rewrite !is_nan_spec. intros. apply SFcompare_rank; auto using Prim2SF_valid.
Qed.

Lemma ltb_rank x y :
  is_nan x = false -> is_nan y = false -> (x <? y)%float = (rank x <? rank y).
Proof.
  intros Nx Ny. rewrite FloatAxioms.ltb_spec. unfold SFltb. rewrite compare_rank by assumption.
  unfold Z.ltb. now destruct (rank x ?= rank y).
Qed.

Lemma leb_rank x y :
  is_nan x = false -> is_nan y = false -> (x <=? y)%float = (rank x <=? rank y).
Proof.
  intros Nx Ny. rewrite FloatAxioms.leb_spec. unfold SFleb. rewrite compare_rank by assumption.
  unfold Z.leb. now destruct (rank x ?= rank y).
Qed.

Lemma eqb_rank x y :
  is_nan x = false -> is_nan y = false -> (x =? y)%float = (rank x =? rank y).
Proof.
  intros Nx Ny. rewrite FloatAxioms.eqb_spec. unfold SFeqb. rewrite compare_rank by assumption.
  rewrite Z.eqb_compare. now destruct (rank x ?= rank y).
Qed.

(** A comparison that holds has no NaN on either side. *)
Lemma leb_not_nan x y : (x <=? y)%float = true -> is_nan x = false /\ is_nan y = false.
Proof.
  rewrite FloatAxioms.leb_spec, !is_nan_spec. unfold SFleb.
  destruct (Prim2SF x), (Prim2SF y); cbn; intros; try discriminate; auto.
Qed.

Lemma eqb_not_nan x y : (x =? y)%float = true -> is_nan x = false /\ is_nan y = false.
Proof.
  rewrite FloatAxioms.eqb_spec, !is_nan_spec. unfold SFeqb.
  destruct (Prim2SF x), (Prim2SF y); cbn; intros; try discriminate; auto.
Qed.

(** The comparator [b - a] is positive exactly when [a < b]. *)
Lemma sub_positive x y :
  is_nan x = false -> is_nan y = false -> (0 <? y - x)%float = (x <? y)%float.
Proof.
  intros Nx Ny. rewrite (ltb_rank x y) by assumption.
  rewrite FloatAxioms.ltb_spec, FloatAxioms.sub_spec. change (Prim2SF 0) with (S754_zero false).
  rewrite is_nan_spec in Nx, Ny.
  apply SFsub_sign; auto using Prim2SF_valid.
Qed.

End Doubles.

(** ** Doubles: rounding

    What [SpecFloat] computes for a square root, a square and a quotient,
    in integers: the mantissas before and after rounding, with the bounds
    that [cosineSimilarity] of a vector with itself needs. *)

Section Rounding.
Local Open Scope Z_scope.

(** The number of bits of a mantissa is fixed by the powers of two around
    it. *)
Lemma digits2_pos_unique m d :
  2 ^ (d - 1) <= Zpos m < 2 ^ d -> Zpos (digits2_pos m) = d.
Proof.
  intros [Hlo Hhi].
  pose proof (digits2_pos_bounds m) as [Dlo Dhi].
  set (D := Zpos (digits2_pos m)) in *.
  assert (0 < d).
  { destruct (Z_lt_le_dec 0 d); [assumption|].
    destruct (Z.eq_dec d 0) as [->|]; [cbn in Hhi; lia|].
    rewrite Z.pow_neg_r in Hhi by lia. lia. }
  destruct (Z_lt_le_dec D d).
  - assert (2 ^ D <= 2 ^ (d - 1)) by (apply Z.pow_le_mono_r; lia). lia.
  - destruct (Z_lt_le_dec d D); [|lia].
    assert (2 ^ d <= 2 ^ (D - 1)) by (apply Z.pow_le_mono_r; lia). lia.
Qed.

(** Shifting right keeps track of the bits it drops. *)
Lemma located_start mx : located mx 0 (shr_record_of_loc mx loc_Exact).
Proof. split; cbn; [now rewrite Z.div_1_r | apply Z.mod_1_r]. Qed.

Lemma located_step mx k mrs :
  0 <= mx -> 0 <= k -> located mx k mrs -> located mx (k + 1) (shr_1 mrs).
Proof.
  intros Hmx Hk [Hm Hl].
  assert (P : 0 < 2 ^ k) by (apply Z.pow_pos_nonneg; lia).
  assert (E : 2 ^ (k + 1) = 2 ^ k * 2) by (rewrite Z.pow_add_r by lia; reflexivity).
  assert (Hq : 0 <= mx / 2 ^ k) by (apply Z.div_pos; lia).
  assert (Hr : 0 <= mx mod 2 ^ k < 2 ^ k) by (apply Z.mod_pos_bound; lia).
  assert (R : mx mod 2 ^ (k + 1) = mx mod 2 ^ k + 2 ^ k * ((mx / 2 ^ k) mod 2)).
  { rewrite E. apply Z.rem_mul_r; lia. }
  assert (Q : mx / 2 ^ (k + 1) = mx / 2 ^ k / 2).
  { rewrite E. symmetry. apply Z.div_div; lia. }
  assert (B : 0 <= (mx / 2 ^ k) mod 2 < 2) by (apply Z.mod_pos_bound; lia).
  pose proof (Z.div_mod (mx / 2 ^ k) 2 ltac:(lia)) as DM.
  split.
  - rewrite shr_1_m by lia. rewrite Hm, Z.div2_div. auto.
  - rewrite R, E. clear R Q E.
    destruct mrs as [m r s]. cbn [shr_m] in Hm. subst m.
    set (q := mx / 2 ^ k) in *. set (t := mx mod 2 ^ k) in *.
    assert (Hz : (r || s)%bool = false -> t = 0).
    { destruct r, s; cbn in *; try discriminate; auto. }
    assert (Hnz : (r || s)%bool = true -> t <> 0).
    { destruct r, s; cbn in *; try discriminate; intros; tauto. }
    destruct (r || s)%bool eqn:RS; [specialize (Hnz eq_refl)|specialize (Hz eq_refl)];
      clear Hl.
    all: destruct q as [|[p|p|]|p]; try lia; cbn [shr_1 loc_of_shr_record]; rewrite RS;
      cbn [loc_of_shr_record].
    all: try (assert (Z0 mod 2 = 0) as E0 by reflexivity; rewrite E0 in * ).
    all: try (assert (Zpos p~1 mod 2 = 1) as E1 by (rewrite Pos2Z.inj_xI, Z.add_comm, Z.mul_comm, Z.mod_add by lia; reflexivity); rewrite E1 in * ).
    all: try (assert (Zpos p~0 mod 2 = 0) as E2 by (rewrite Pos2Z.inj_xO, Z.mul_comm, Z.mod_mul by lia; reflexivity); rewrite E2 in * ).
    all: try (assert (1 mod 2 = 1) as E3 by reflexivity; rewrite E3 in * ).
    all: rewrite ?Z.mul_0_r, ?Z.mul_1_r, ?Z.add_0_r.
    all: try (split; [lia|]).
    all: try lia.
    all: try (apply Z.compare_lt_iff; lia).
    all: try (apply Z.compare_gt_iff; lia).
    all: try (apply Z.compare_eq_iff; lia).
Qed.

Lemma located_iter mx p : forall k mrs,
  0 <= mx -> 0 <= k -> located mx k mrs ->
  located mx (k + Zpos p) (SpecFloat.iter_pos shr_1 p mrs).
Proof.
  induction p as [p IH|p IH|]; intros k mrs Hmx Hk H; cbn [SpecFloat.iter_pos].
  - replace (k + Zpos p~1) with (k + 1 + Zpos p + Zpos p) by lia.
    apply IH; try lia. apply IH; try lia. now apply located_step.
  - replace (k + Zpos p~0) with (k + Zpos p + Zpos p) by lia.
    apply IH; try lia. now apply IH.
  - now apply located_step.
Qed.

(** [shr_fexp] shifts by the distance to the exponent that the number of
    bits asks for, when that is positive. *)
Lemma shr_fexp_noshift m e l :
  fexp prec emax (Zdigits2 m + e) <= e ->
  shr_fexp prec emax m e l = (shr_record_of_loc m l, e).
Proof.
  intros H. unfold shr_fexp, shr.
  destruct (fexp prec emax (Zdigits2 m + e) - e) eqn:E; try reflexivity. lia.
Qed.

Lemma shr_fexp_shift m e l n :
  0 < n -> fexp prec emax (Zdigits2 m + e) - e = n ->
  shr_fexp prec emax m e l =
    (SpecFloat.iter_pos shr_1 (Z.to_pos n) (shr_record_of_loc m l), e + n).
Proof.
  intros Hn H. unfold shr_fexp, shr. rewrite H.
  destruct n; try lia. reflexivity.
Qed.

Lemma loc_of_shr_record_of_loc m l : loc_of_shr_record (shr_record_of_loc m l) = l.
Proof. now destruct l as [|[]]. Qed.

Lemma shr_m_of_loc m l : shr_m (shr_record_of_loc m l) = m.
Proof. now destruct l as [|[]]. Qed.

(** The second half of [binary_round_aux]: a rounded mantissa of at most 53
    bits is kept, and [2^53] becomes [2^52] one exponent higher. *)
Lemma binary_round_aux_value sx mx ex lx mrs e1 m1 :
  shr_fexp prec emax mx ex lx = (mrs, e1) ->
  round_nearest_even (shr_m mrs) (loc_of_shr_record mrs) = Zpos m1 ->
  Zpos m1 <= 2 ^ 53 -> emin <= e1 ->
  binary_round_aux prec emax sx mx ex lx =
    if Zpos m1 <? 2 ^ 53
    then (if e1 <=? 971 then S754_finite sx m1 e1 else S754_infinity sx)
    else (if e1 + 1 <=? 971 then S754_finite sx (Z.to_pos (2 ^ 52)) (e1 + 1)
          else S754_infinity sx).
Proof.
  intros Hs Hr Hm He. unfold binary_round_aux. rewrite Hs, Hr.
  destruct (Z.ltb_spec (Zpos m1) (2 ^ 53)) as [L|G].
  - assert (D : Zpos (digits2_pos m1) <= 53).
    { pose proof (digits2_pos_bounds m1) as [Dlo _].
      destruct (Z_le_gt_dec (Zpos (digits2_pos m1)) 53); [assumption|].
      assert (2 ^ 53 <= 2 ^ (Zpos (digits2_pos m1) - 1)) by (apply Z.pow_le_mono_r; lia).
      lia. }
    rewrite shr_fexp_noshift by (cbn [Zdigits2]; rewrite fexp_eq; lia).
    cbn [shr_record_of_loc shr_m]. reflexivity.
  - assert (E : Zpos m1 = 2 ^ 53) by lia.
    assert (D : Zpos (digits2_pos m1) = 54).
    { apply digits2_pos_unique. rewrite E. split; [reflexivity|]. 
      change (54 - 1) with 53. apply Z.pow_lt_mono_r; lia. }
    rewrite (shr_fexp_shift _ _ _ 1) by (cbn [Zdigits2]; rewrite ?fexp_eq; lia).
    assert (M : m1 = Z.to_pos (2 ^ 53)) by (rewrite <- E; reflexivity).
    subst m1. reflexivity.
Qed.

Lemma pow2_pos k : 0 <= k -> 0 < 2 ^ k.
Proof. intros. apply Z.pow_pos_nonneg; lia. Qed.

(** The square root of a positive double [ms * 2^es]: a normal double
    [mr * 2^er] whose square is within [mr * 2^(2 er)], one part in [2^52],
    of it.  It never rounds up to a power of two. *)
Lemma SFsqrt_finite ms es :
  valid_binary (S754_finite false ms es) = true ->
  exists mr er,
    SF64sqrt (S754_finite false ms es) = S754_finite false mr er /\
    2 ^ 52 <= Zpos mr < 2 ^ 53 /\ -589 <= er <= 459 /\ 52 <= es - 2 * er /\
    Zpos mr * Zpos mr - Zpos mr <= Zpos ms * 2 ^ (es - 2 * er)
      <= Zpos mr * Zpos mr + Zpos mr.
Proof.
  intros V. apply valid_finite_bounds in V as (He & Hd & _).
  pose proof (digits2_pos_bounds ms) as [Dlo Dhi].
  unfold SF64sqrt, SFsqrt, SFsqrt_core_binary. cbn [Zdigits2].
  set (d := Zpos (digits2_pos ms)) in *.
  assert (Hd1 : 1 <= d) by (unfold d; lia).
  rewrite !Z.div2_div, !fexp_eq.
  set (t := (d + es + 1) / 2).
  pose proof (Z.div_mod (d + es + 1) 2 ltac:(lia)) as DM. fold t in DM.
  pose proof (Z.mod_pos_bound (d + es + 1) 2 ltac:(lia)) as MB.
  pose proof (Z.div_mod es 2 ltac:(lia)) as DM2.
  pose proof (Z.mod_pos_bound es 2 ltac:(lia)) as MB2.
  assert (Hmin : Z.min (Z.max (t - 53) emin) (es / 2) = t - 53) by lia.
  rewrite Hmin. clear Hmin DM2 MB2.
  set (sh := es - 2 * (t - 53)).
  assert (Hsh : sh = 105 - d + (d + es + 1) mod 2) by (unfold sh; lia).
  assert (Hsh52 : 52 <= sh) by lia.
  destruct sh as [|p|p] eqn:Esh; try lia. rewrite <- Esh in *.
  rewrite Z.shiftl_mul_pow2 by lia.
  set (M := Zpos ms * 2 ^ sh).
  assert (HM : 2 ^ 104 <= M < 2 ^ 106).
  { unfold M.
    assert (P : 0 < 2 ^ sh) by (apply pow2_pos; lia).
    assert (2 ^ 104 <= 2 ^ (d - 1) * 2 ^ sh).
    { rewrite <- Z.pow_add_r by lia. apply Z.pow_le_mono_r; lia. }
    assert (2 ^ d * 2 ^ sh <= 2 ^ 106).
    { rewrite <- Z.pow_add_r by lia. apply Z.pow_le_mono_r; lia. }
    nia. }
  pose proof (Z.sqrtrem_spec M ltac:(lia)) as SQ.
  destruct (Z.sqrtrem M) as [q r]. destruct SQ as [SQ1 SQ2].
  assert (T104 : 2 ^ 104 = 2 ^ 52 * 2 ^ 52) by reflexivity.
  assert (T106 : 2 ^ 106 = 2 ^ 53 * 2 ^ 53) by reflexivity.
  assert (T53 : 2 ^ 53 = 2 * 2 ^ 52) by reflexivity.
  assert (T52 : 0 < 2 ^ 52) by reflexivity.
  assert (Hq : 2 ^ 52 <= q < 2 ^ 53) by (rewrite T104, T106 in HM; nia).
  destruct q as [|q|q]; try lia.
  assert (Dq : Zpos (digits2_pos q) = 53) by (apply digits2_pos_unique; exact Hq).
  assert (Hshr : forall l, shr_fexp prec emax (Zpos q) (t - 53) l =
                           (shr_record_of_loc (Zpos q) l, t - 53)).
  { intros l. apply shr_fexp_noshift. cbn [Zdigits2]. rewrite fexp_eq. lia. }
  assert (NoCarry : Zpos q < r -> Zpos q + 1 < 2 ^ 53).
  { intros Hr. destruct (Z_lt_le_dec (Zpos q + 1) (2 ^ 53)); [assumption|exfalso].
    assert (Eq : Zpos q = 2 ^ 53 - 1) by lia.
    destruct (Z.eq_dec sh 52) as [E52|N52].
    - assert (M < 2 ^ 105).
      { unfold M. rewrite E52.
        assert (2 ^ d <= 2 ^ 53) by (apply Z.pow_le_mono_r; lia).
        change (2 ^ 105) with (2 ^ 53 * 2 ^ 52). nia. }
      change (2 ^ 105) with (2 * (2 ^ 52 * 2 ^ 52)) in *. nia.
    - assert (EM : M = (Zpos ms * 2 ^ (sh - 53)) * 2 ^ 53).
      { unfold M. rewrite <- Z.mul_assoc, <- Z.pow_add_r by lia. do 2 f_equal. lia. }
      set (c := Zpos ms * 2 ^ (sh - 53)) in *.
      rewrite T106 in HM. nia. }
  set (l := if r =? 0 then loc_Exact else loc_Inexact (if r <=? Zpos q then Lt else Gt)).
  assert (Hround : exists m1,
             round_nearest_even (Zpos q) l = Zpos m1 /\ Zpos m1 < 2 ^ 53 /\ 2 ^ 52 <= Zpos m1 /\
             Zpos m1 * Zpos m1 - Zpos m1 <= M <= Zpos m1 * Zpos m1 + Zpos m1).
  { unfold l. destruct (Z.eqb_spec r 0) as [R0|R0].
    - exists q. cbn [round_nearest_even]. repeat split; try reflexivity; nia.
    - destruct (Z.leb_spec r (Zpos q)) as [Rle|Rgt].
      + exists q. cbn [round_nearest_even]. repeat split; try reflexivity; nia.
      + exists (q + 1)%positive. cbn [round_nearest_even].
        specialize (NoCarry Rgt). rewrite Pos2Z.inj_add. repeat split; try reflexivity; nia. }
  destruct Hround as (m1 & R1 & R2 & R3 & R4).
  exists m1, (t - 53).
  rewrite (binary_round_aux_value false (Zpos q) (t - 53) l _ (t - 53) m1 (Hshr l))
    by (rewrite ?shr_m_of_loc, ?loc_of_shr_record_of_loc; try exact R1; lia).
  destruct (Z.ltb_spec (Zpos m1) (2 ^ 53)); [|lia].
  destruct (Z.leb_spec (t - 53) 971); [|lia].
  split; [reflexivity|].
  fold sh. fold M. repeat split; try lia.
Qed.

(** Rounding the shifted mantissa to nearest moves it by at most half of
    [2^n]. *)
Lemma round_nearest_even_located mx n mrs :
  0 <= mx -> 0 < n -> located mx n mrs ->
  let m1 := round_nearest_even (shr_m mrs) (loc_of_shr_record mrs) in
  mx / 2 ^ n <= m1 <= mx / 2 ^ n + 1 /\
  - 2 ^ n <= 2 * (m1 * 2 ^ n - mx) <= 2 ^ n.
Proof.
  intros Hmx Hn [Hm Hl]. cbn zeta. rewrite Hm.
  assert (P : 0 < 2 ^ n) by (apply pow2_pos; lia).
  pose proof (Z.div_mod mx (2 ^ n) ltac:(lia)) as DM.
  pose proof (Z.mod_pos_bound mx (2 ^ n) P) as MB.
  set (f := mx / 2 ^ n) in *. set (t := mx mod 2 ^ n) in *.
  destruct (loc_of_shr_record mrs) as [|c]; cbn [round_nearest_even].
  - nia.
  - destruct Hl as [Hne Hc]. destruct c; cbn [round_nearest_even].
    + apply Z.compare_eq_iff in Hc. destruct (Z.even f); nia.
    + apply -> Z.compare_lt_iff in Hc. nia.
    + apply -> Z.compare_gt_iff in Hc. nia.
Qed.

(** The square of that root, rounded: it neither overflows nor vanishes,
    and it is within one part in [2^50] of [ms * 2^es].  When the square is
    subnormal and rounding drops 54 bits or more, it is [ms * 2^es]
    itself. *)
Lemma SFmul_square ms es mr er :
  valid_binary (S754_finite false ms es) = true ->
  2 ^ 52 <= Zpos mr < 2 ^ 53 -> -589 <= er <= 459 -> 52 <= es - 2 * er ->
  Zpos mr * Zpos mr - Zpos mr <= Zpos ms * 2 ^ (es - 2 * er)
    <= Zpos mr * Zpos mr + Zpos mr ->
  exists mp ep,
    SF64mul (S754_finite false mr er) (S754_finite false mr er) = S754_finite false mp ep /\
    2 * er <= ep /\
    2 ^ 50 * Z.abs (Zpos ms * 2 ^ (es - 2 * er) - Zpos mp * 2 ^ (ep - 2 * er))
      <= Zpos mp * 2 ^ (ep - 2 * er).
Proof.
  intros V Hmr Her Hsh HA. apply valid_finite_bounds in V as (He & Hd & _).
  unfold SF64mul, SFmul. cbn [xorb].
  replace (er + er) with (2 * er) by lia.
  set (E := 2 * er) in *. set (A := Zpos ms * 2 ^ (es - E)) in *.
  rewrite Pos2Z.inj_mul. set (P := Zpos mr * Zpos mr) in *.
  assert (T104 : 2 ^ 104 = 2 ^ 52 * 2 ^ 52) by reflexivity.
  assert (T106 : 2 ^ 106 = 2 ^ 53 * 2 ^ 53) by reflexivity.
  assert (T53 : 2 ^ 53 = 2 * 2 ^ 52) by reflexivity.
  assert (T52 : 0 < 2 ^ 52) by reflexivity.
  assert (HP : 2 ^ 104 <= P <= 2 ^ 106 - 2 * 2 ^ 53 + 1) by (unfold P; rewrite T104, T106; nia).
  assert (Ppos : exists p, P = Zpos p) by (exists (mr * mr)%positive; unfold P; lia).
  destruct Ppos as (p & EP).
  pose proof (digits2_pos_bounds p) as [Dlo Dhi]. rewrite <- EP in Dlo, Dhi.
  set (dP := Zpos (digits2_pos p)) in *.
  assert (HdP : 105 <= dP <= 106).
  { split.
    - destruct (Z_le_gt_dec 105 dP); [assumption|].
      assert (2 ^ dP <= 2 ^ 104) by (apply Z.pow_le_mono_r; lia). lia.
    - destruct (Z_le_gt_dec dP 106); [assumption|].
      assert (2 ^ 106 <= 2 ^ (dP - 1)) by (apply Z.pow_le_mono_r; lia).
      change (2 ^ 106) with (2 * 2 ^ 105) in *. lia. }
  set (n := Z.max (dP - 53) (emin - E)).
  assert (Hn : fexp prec emax (Zdigits2 P + E) - E = n).
  { rewrite EP. cbn [Zdigits2]. fold dP. rewrite fexp_eq. unfold n. lia. }
  assert (Hn0 : 52 <= n <= 104) by (unfold n, E; lia).
  pose proof (shr_fexp_shift P E loc_Exact n ltac:(lia) Hn) as Hshr.
  pose proof (located_iter P (Z.to_pos n) 0 _ ltac:(lia) ltac:(lia) (located_start P)) as L.
  rewrite Z.add_0_l, Z2Pos.id in L by lia.
  set (mrs := SpecFloat.iter_pos shr_1 (Z.to_pos n) (shr_record_of_loc P loc_Exact)) in *.
  pose proof (round_nearest_even_located P n mrs ltac:(lia) ltac:(lia) L) as [R1 R2].
  assert (N : 0 < 2 ^ n) by (apply pow2_pos; lia).
  assert (Hf : 1 <= P / 2 ^ n < 2 ^ 53).
  { split.
    - apply Z.div_le_lower_bound; [lia|].
      assert (2 ^ n <= 2 ^ 104) by (apply Z.pow_le_mono_r; lia). lia.
    - apply Z.div_lt_upper_bound; [lia|].
      assert (2 ^ dP <= 2 ^ (n + 53)) by (apply Z.pow_le_mono_r; lia).
      rewrite Z.pow_add_r in * by lia. lia. }
  destruct (round_nearest_even (shr_m mrs) (loc_of_shr_record mrs)) as [|m1|m1] eqn:Em1;
    try lia.
  rewrite (binary_round_aux_value false _ E loc_Exact mrs (E + n) m1 Hshr)
    by (try exact Em1; try lia; unfold n; lia).
  assert (B : exists mp ep,
             (if Zpos m1 <? 2 ^ 53
              then if E + n <=? 971 then S754_finite false m1 (E + n) else S754_infinity false
              else if E + n + 1 <=? 971
                   then S754_finite false (Z.to_pos (2 ^ 52)) (E + n + 1)
                   else S754_infinity false) = S754_finite false mp ep /\
             E + n <= ep /\ Zpos mp * 2 ^ (ep - E) = Zpos m1 * 2 ^ n).
  { destruct (Z.ltb_spec (Zpos m1) (2 ^ 53)) as [Lt53|Ge53].
    - destruct (Z.leb_spec (E + n) 971); [|unfold n, E in *; lia].
      exists m1, (E + n). repeat split; try lia. do 2 f_equal. lia.
    - assert (E53 : Zpos m1 = 2 ^ 53) by lia.
      assert (Hn' : n <> 53 \/ dP = 105).
      { destruct (Z.eq_dec dP 105); [now right|left]. intros E'.
        assert (P / 2 ^ n * 2 ^ n <= P) by (rewrite Z.mul_comm; apply Z.mul_div_le; lia).
        rewrite E' in *. nia. }
      destruct (Z.leb_spec (E + n + 1) 971); [|unfold n, E in *; lia].
      exists (Z.to_pos (2 ^ 52)), (E + n + 1). repeat split; try lia.
      rewrite E53. replace (E + n + 1 - E) with (1 + n) by lia.
      rewrite Z.pow_add_r by lia.
      change (Zpos (Z.to_pos (2 ^ 52))) with (2 ^ 52). change (2 ^ 53) with (2 ^ 52 * 2 ^ 1). lia. }
  destruct B as (mp & ep & -> & Hep & HB).
  exists mp, ep. split; [reflexivity|]. split; [lia|].
  rewrite HB. set (Bv := Zpos m1 * 2 ^ n) in *.
  destruct (Z_le_gt_dec n 53) as [Small|Big].
  - assert (2 ^ n <= 2 ^ 53) by (apply Z.pow_le_mono_r; lia).
    change (2 ^ 50 * Z.abs (A - Bv) <= Bv).
    assert (Z.abs (A - Bv) <= 2 ^ 52 + 2 ^ 53) by lia.
    assert (2 ^ 104 - 2 ^ 52 <= Bv) by lia.
    assert (2 ^ 50 * (2 ^ 52 + 2 ^ 53) <= 2 ^ 104 - 2 ^ 52) by (vm_compute; discriminate).
    nia.
  - assert (En : n = emin - E) by (unfold n in *; lia).
    assert (EA : A = (Zpos ms * 2 ^ (es - emin)) * 2 ^ n).
    { unfold A. rewrite <- Z.mul_assoc, <- Z.pow_add_r by lia. do 2 f_equal. lia. }
    set (a := Zpos ms * 2 ^ (es - emin)) in *.
    assert (2 ^ 54 <= 2 ^ n) by (apply Z.pow_le_mono_r; lia).
    change (2 ^ 54) with (2 * 2 ^ 53) in *.
    assert (Zpos m1 = a) by (unfold Bv in *; nia).
    replace (A - Bv) with 0 by (unfold Bv; nia).
    cbn [Z.abs]. unfold Bv. nia.
Qed.

Lemma round_nearest_even_range m l :
  m <= round_nearest_even m l <= m + 1.
Proof. destruct l as [|[]]; cbn; try destruct (Z.even m); lia. Qed.

Lemma digits2_pos_le m d : Zpos m < 2 ^ d -> Zpos (digits2_pos m) <= d.
Proof.
  intros H. pose proof (digits2_pos_bounds m) as [Dlo _].
  destruct (Z_le_gt_dec (Zpos (digits2_pos m)) d); [assumption|].
  assert (0 <= d).
  { destruct (Z_le_gt_dec 0 d); [assumption|]. rewrite Z.pow_neg_r in H by lia. lia. }
  assert (2 ^ d <= 2 ^ (Zpos (digits2_pos m) - 1)) by (apply Z.pow_le_mono_r; lia).
  lia.
Qed.

Lemma digits2_pos_ge m d : 2 ^ (d - 1) <= Zpos m -> d <= Zpos (digits2_pos m).
Proof.
  intros H. pose proof (digits2_pos_bounds m) as [_ Dhi].
  destruct (Z_le_gt_dec d (Zpos (digits2_pos m))); [assumption|].
  assert (2 ^ Zpos (digits2_pos m) <= 2 ^ (d - 1)) by (apply Z.pow_le_mono_r; lia).
  lia.
Qed.

(** The quotient of two positive doubles that are within one part in
    [2^50] of each other lies between [1 - 2^-49] and [1 + 2^-49]; the
    bounds are given as ranks. *)
Lemma SFdiv_near_one ms es mp ep a b :
  valid_binary (S754_finite false ms es) = true ->
  valid_binary (S754_finite false mp ep) = true ->
  0 <= a -> 0 <= b -> a - b = es - ep ->
  2 ^ 50 * Z.abs (Zpos ms * 2 ^ a - Zpos mp * 2 ^ b) <= Zpos mp * 2 ^ b ->
  exists mc ec,
    SF64div (S754_finite false ms es) (S754_finite false mp ep) = S754_finite false mc ec /\
    -54 <= ec /\
    (2 ^ 53 - 16) * 2 ^ 1021 <= Zpos mc * 2 ^ (ec + 1074) <= (2 ^ 53 + 16) * 2 ^ 1021.
Proof.
  intros Vs Vp Ha Hb Hab Hnear.
  apply valid_finite_bounds in Vs as (Hes & Hds & _).
  apply valid_finite_bounds in Vp as (Hep & Hdp & _).
  pose proof (digits2_pos_bounds ms) as [D1lo D1hi].
  pose proof (digits2_pos_bounds mp) as [D2lo D2hi].
  unfold SF64div, SFdiv, SFdiv_core_binary. cbn [xorb Zdigits2].
  set (d1 := Zpos (digits2_pos ms)) in *. set (d2 := Zpos (digits2_pos mp)) in *.
  assert (Hd1 : 1 <= d1) by (unfold d1; lia).
  assert (Hd2 : 1 <= d2) by (unfold d2; lia).
  set (A := Zpos ms * 2 ^ a) in *. set (B := Zpos mp * 2 ^ b) in *.
  assert (Pa : 0 < 2 ^ a) by (apply pow2_pos; lia).
  assert (Pb : 0 < 2 ^ b) by (apply pow2_pos; lia).
  assert (T50 : 2 ^ 50 = 1125899906842624) by reflexivity.
  assert (HAB : B < 2 * A /\ A < 2 * B) by lia.
  set (dl := d1 + es - (d2 + ep)).
  assert (Hdl : -1 <= dl <= 1).
  { assert (LA : 2 ^ (d1 - 1 + a) <= A < 2 ^ (d1 + a)).
    { unfold A. rewrite !Z.pow_add_r by lia. nia. }
    assert (LB : 2 ^ (d2 - 1 + b) <= B < 2 ^ (d2 + b)).
    { unfold B. rewrite !Z.pow_add_r by lia. nia. }
    split.
    - destruct (Z_le_gt_dec (-1) dl); [assumption|exfalso].
      assert (2 ^ (d1 + a + 1) <= 2 ^ (d2 - 1 + b)) by (apply Z.pow_le_mono_r; unfold dl in *; lia).
      rewrite (Z.pow_add_r _ _ 1) in * by lia. change (2 ^ 1) with 2 in *. lia.
    - destruct (Z_le_gt_dec dl 1); [assumption|exfalso].
      assert (2 ^ (d2 + b + 1) <= 2 ^ (d1 - 1 + a)) by (apply Z.pow_le_mono_r; unfold dl in *; lia).
      rewrite (Z.pow_add_r _ _ 1) in * by lia. change (2 ^ 1) with 2 in *. lia. }
  rewrite fexp_eq. fold dl.
  assert (Hmin : Z.min (Z.max (dl - 53) emin) (es - ep) = dl - 53) by (unfold dl in *; lia).
  rewrite Hmin. clear Hmin.
  set (sh := es - ep - (dl - 53)).
  assert (Hsh : sh = 53 + d2 - d1) by (unfold sh, dl; lia).
  destruct sh as [|psh|psh] eqn:Esh; try lia. rewrite <- Esh in *.
  rewrite Z.shiftl_mul_pow2 by lia.
  set (m' := Zpos ms * 2 ^ sh).
  pose proof (Z_div_mod m' (Zpos mp) ltac:(lia)) as DE.
  destruct (Z.div_eucl m' (Zpos mp)) as [q r]. destruct DE as [DE1 DE2].
  assert (Psh : 0 < 2 ^ sh) by (apply pow2_pos; lia).
  assert (Hq : 2 ^ 52 <= q < 2 ^ 54).
  { assert (L1 : 2 ^ 52 * 2 ^ d2 <= m').
    { unfold m'. rewrite Hsh.
      replace (2 ^ 52 * 2 ^ d2) with (2 ^ (d1 - 1) * 2 ^ (53 + d2 - d1))
        by (rewrite <- !Z.pow_add_r by lia; f_equal; lia).
      apply Z.mul_le_mono_nonneg_r; lia. }
    assert (L2 : m' < 2 ^ 54 * 2 ^ (d2 - 1)).
    { unfold m'. rewrite Hsh.
      replace (2 ^ 54 * 2 ^ (d2 - 1)) with (2 ^ d1 * 2 ^ (53 + d2 - d1))
        by (rewrite <- !Z.pow_add_r by lia; f_equal; lia).
      apply Z.mul_lt_mono_pos_r; [rewrite <- Hsh|]; lia. }
    assert (0 < 2 ^ 52) by reflexivity. assert (0 < 2 ^ 54) by reflexivity.
    split; [|nia].
    destruct (Z_le_gt_dec (2 ^ 52) q); [assumption|exfalso].
    assert (q + 1 <= 2 ^ 52) by lia. nia. }
  set (scale := 2 ^ (53 - dl)).
  assert (HS : m' * 2 ^ b = A * scale).
  { unfold m', A, scale. rewrite <- !Z.mul_assoc, <- !Z.pow_add_r by lia.
    do 2 f_equal. unfold sh. lia. }
  assert (Hq2 : scale - scale / 2 ^ 50 <= q <= scale + scale / 2 ^ 50 /\ scale = 2 ^ 50 * (scale / 2 ^ 50) /\ 0 < scale).
  { assert (ES : exists scale', scale = 2 ^ 50 * scale' /\ 0 < scale').
    { exists (2 ^ (3 - dl)). unfold scale. rewrite <- Z.pow_add_r by lia.
      split; [f_equal; lia | apply pow2_pos; lia]. }
    destruct ES as (scale' & ES & PS').
    assert (scale / 2 ^ 50 = scale') as -> by (rewrite ES, Z.mul_comm, Z.div_mul; lia).
    rewrite T50 in *.
    assert (qB : q * B <= A * scale < (q + 1) * B).
    { rewrite <- HS. unfold B. rewrite DE1. nia. }
    repeat split; try lia; clear - qB Hnear ES PS' Pb; nia. }
  destruct q as [|q|q]; try lia.
  assert (Dq : 53 <= Zpos (digits2_pos q) <= 54).
  { split; [apply digits2_pos_ge | apply digits2_pos_le]; lia. }
  set (l := new_location (Zpos mp) r). clearbody l.
  set (e' := dl - 53) in *.
  assert (Hround : exists mrs e1 m1,
            shr_fexp prec emax (Zpos q) e' l = (mrs, e1) /\
            round_nearest_even (shr_m mrs) (loc_of_shr_record mrs) = Zpos m1 /\
            Zpos m1 <= 2 ^ 53 /\ e' <= e1 <= e' + 1 /\
            Zpos q - 1 <= Zpos m1 * 2 ^ (e1 - e') <= Zpos q + 2).
  { destruct (Z.eq_dec (Zpos (digits2_pos q)) 53) as [D53|D54].
    - pose proof (digits2_pos_bounds q) as [_ Qhi]. rewrite D53 in Qhi.
      pose proof (round_nearest_even_range (Zpos q) l) as RR.
      destruct (round_nearest_even (Zpos q) l) as [|m1|m1] eqn:Er; try lia.
      exists (shr_record_of_loc (Zpos q) l), e', m1.
      rewrite shr_fexp_noshift by (cbn [Zdigits2]; rewrite fexp_eq; unfold e'; lia).
      rewrite shr_m_of_loc, loc_of_shr_record_of_loc, Er.
      replace (e' - e') with 0 by lia. cbn [Z.pow]. repeat split; try lia.
    - assert (D : Zpos (digits2_pos q) = 54) by lia.
      pose proof (digits2_pos_bounds q) as [Qlo Qhi]. rewrite D in Qlo, Qhi.
      change (54 - 1) with 53 in Qlo.
      set (mrs := SpecFloat.iter_pos shr_1 1 (shr_record_of_loc (Zpos q) l)).
      assert (Hm : shr_m mrs = Zpos q / 2).
      { unfold mrs. rewrite iter_shr_1_m by (rewrite shr_m_of_loc; lia).
        rewrite shr_m_of_loc. now rewrite Z.shiftr_div_pow2 by lia. }
      pose proof (Z.div_mod (Zpos q) 2 ltac:(lia)) as DM.
      pose proof (Z.mod_pos_bound (Zpos q) 2 ltac:(lia)) as MB.
      pose proof (round_nearest_even_range (shr_m mrs) (loc_of_shr_record mrs)) as RR.
      destruct (round_nearest_even (shr_m mrs) (loc_of_shr_record mrs)) as [|m1|m1] eqn:Er;
        rewrite Hm in RR; try lia.
      exists mrs, (e' + 1), m1.
      rewrite (shr_fexp_shift _ _ _ 1) by (cbn [Zdigits2]; rewrite ?fexp_eq; unfold e'; lia).
      replace (e' + 1 - e') with 1 by lia. change (2 ^ 1) with 2.
      change (2 ^ 54) with (2 * 2 ^ 53) in Qhi.
      repeat split; try lia. }
  destruct Hround as (mrs & e1 & m1 & Hshr & Hr & Hm1 & He1 & HV).
  rewrite (binary_round_aux_value false _ e' l mrs e1 m1 Hshr Hr Hm1) by (unfold e'; lia).
  assert (R : exists mc ec,
             (if Zpos m1 <? 2 ^ 53
              then if e1 <=? 971 then S754_finite false m1 e1 else S754_infinity false
              else if e1 + 1 <=? 971
                   then S754_finite false (Z.to_pos (2 ^ 52)) (e1 + 1)
                   else S754_infinity false) = S754_finite false mc ec /\
             e1 <= ec /\ Zpos mc * 2 ^ (ec - e') = Zpos m1 * 2 ^ (e1 - e')).
  { destruct (Z.ltb_spec (Zpos m1) (2 ^ 53)) as [Lt53|Ge53].
    - destruct (Z.leb_spec e1 971); [|unfold e' in *; lia].
      exists m1, e1. repeat split; lia.
    - assert (E53 : Zpos m1 = 2 ^ 53) by lia.
      destruct (Z.leb_spec (e1 + 1) 971); [|unfold e' in *; lia].
      exists (Z.to_pos (2 ^ 52)), (e1 + 1). repeat split; try lia.
      rewrite E53. replace (e1 + 1 - e') with (1 + (e1 - e')) by lia.
      rewrite Z.pow_add_r by lia.
      change (Zpos (Z.to_pos (2 ^ 52))) with (2 ^ 52). change (2 ^ 53) with (2 ^ 52 * 2 ^ 1). lia. }
  destruct R as (mc & ec & -> & Hec & HR).
  exists mc, ec. split; [reflexivity|]. split; [unfold e' in *; lia|].
  replace (ec + 1074) with ((ec - e') + (e' + 1074)) by lia.
  rewrite Z.pow_add_r, Z.mul_assoc, HR by (unfold e' in *; lia).
  set (Vc := Zpos m1 * 2 ^ (e1 - e')) in *.
  destruct Hq2 as (Hq2 & _ & _).
  assert (Cases : dl = -1 \/ dl = 0 \/ dl = 1) by lia.
  unfold scale, e' in *. clear - Cases Hq2 HV.
  destruct Cases as [-> | [-> | ->]].
  - change (2 ^ (53 - -1) / 2 ^ 50) with 16 in Hq2. change (2 ^ (53 - -1)) with (2 ^ 54) in Hq2.
    change (2 ^ (-1 - 53 + 1074)) with (2 ^ 1020).
    change (2 ^ 1021) with (2 * 2 ^ 1020). change (2 ^ 54) with (2 * 2 ^ 53) in Hq2.
    assert (0 < 2 ^ 1020) by reflexivity. nia.
  - change (2 ^ (53 - 0) / 2 ^ 50) with 8 in Hq2. change (2 ^ (53 - 0)) with (2 ^ 53) in Hq2.
    change (2 ^ (0 - 53 + 1074)) with (2 ^ 1021).
    assert (0 < 2 ^ 1021) by reflexivity. nia.
  - change (2 ^ (53 - 1) / 2 ^ 50) with 4 in Hq2. change (2 ^ (53 - 1)) with (2 ^ 52) in Hq2.
    change (2 ^ (1 - 53 + 1074)) with (2 ^ 1022).
    change (2 ^ 1022) with (2 * 2 ^ 1021). change (2 ^ 53) with (2 * 2 ^ 52).
    assert (0 < 2 ^ 1021) by reflexivity. nia.
Qed.

End Rounding.

(** ** Arrays: [sort] and [slice] *)

Section Subsequences.
Context {A : Type}.

Lemma subsequence_refl (l : list A) : subsequence l l.
Proof. induction l; constructor; assumption. Qed.

Lemma subsequence_trans (l1 l2 l3 : list A) :
  subsequence l1 l2 -> subsequence l2 l3 -> subsequence l1 l3.
Proof.
  intros H12 H23. revert l1 H12.
  induction H23 as [l|x l2 l3 _ IH|x l2 l3 _ IH]; intros l1 H12.
  - inversion H12; subst. constructor.
  - inversion H12; subst; constructor; auto.
  - constructor. auto.
Qed.

Lemma subsequence_In (x : A) (l1 l2 : list A) :
  subsequence l1 l2 -> In x l1 -> In x l2.
Proof. induction 1; cbn; intuition auto. Qed.

Lemma subsequence_filter (p : A -> bool) (l : list A) : subsequence (filter p l) l.
Proof.
  induction l as [|x l IH]; cbn; [constructor|].
  destruct (p x); constructor; assumption.
Qed.

Lemma subsequence_firstn (k : nat) (l : list A) : subsequence (firstn k l) l.
Proof.
  revert l. induction k as [|k IH]; intros [|x l]; cbn; constructor; auto.
Qed.

Lemma subsequence_map {B : Type} (f : A -> B) (l1 l2 : list A) :
  subsequence l1 l2 -> subsequence (map f l1) (map f l2).
Proof. induction 1; cbn; constructor; assumption. Qed.

Lemma StronglySorted_firstn (R : A -> A -> Prop) (k : nat) (l : list A) :
  StronglySorted R l -> StronglySorted R (firstn k l).
Proof.
  intros H. revert k. induction H as [|x l Hl IH Hx]; intros [|k]; cbn; constructor.
  - apply IH.
  - rewrite Forall_forall in *. intros y Hy. apply Hx.
    eapply (In_nth_error) in Hy as [i Hi].
    apply nth_error_In with i.
    rewrite nth_error_firstn in Hi. destruct (Nat.ltb i k); congruence.
Qed.
End Subsequences.

Section SortGeneric.
Context {A : Type} (comparefn : A -> A -> float).

Lemma sort_insert_In (x z : A) (l : list A) :
  In z (sort_insert comparefn x l) <-> z = x \/ In z l.
Proof.
  induction l as [|y l IH]; cbn.
  - intuition auto.
  - destruct (0 <? comparefn x y)%float; cbn; rewrite ?IH; intuition auto.
Qed.

Lemma sort_insert_length (x : A) (l : list A) :
  List.length (sort_insert comparefn x l) = S (List.length l).
Proof.
  induction l as [|y l IH]; cbn; [reflexivity|].
  destruct (0 <? comparefn x y)%float; cbn; now rewrite ?IH.
Qed.

Lemma sort_In (z : A) (l : list A) : In z (sort comparefn l) <-> In z l.
Proof.
  unfold sort. induction l as [|x l IH]; cbn [fold_right]; [reflexivity|].
  rewrite sort_insert_In, IH. cbn. intuition auto.
Qed.

Lemma sort_length (l : list A) : List.length (sort comparefn l) = List.length l.
Proof.
  unfold sort. induction l as [|x l IH]; cbn [fold_right]; [reflexivity|].
  now rewrite sort_insert_length, IH.
Qed.

Lemma sort_Forall (P : A -> Prop) (l : list A) :
  Forall P l -> Forall P (sort comparefn l).
Proof. rewrite !Forall_forall. intros H z Hz. apply H. now apply sort_In. Qed.
End SortGeneric.

(** *** Sorting results by [b.similarity - a.similarity] *)

Lemma by_similarity_after (x y : Result.t) :
  scored_number x -> scored_number y ->
  (0 <? by_similarity x y)%float
  = (rank (Result.similarity x) <? rank (Result.similarity y))%Z.
Proof.
  intros Hx Hy. unfold by_similarity.
  rewrite sub_positive by assumption. now apply ltb_rank.
Qed.

Lemma non_increasing_rank (x y : Result.t) :
  scored_number x -> scored_number y ->
  non_increasing x y <-> (rank (Result.similarity y) <= rank (Result.similarity x))%Z.
Proof.
  intros Hx Hy. unfold non_increasing. rewrite leb_rank by assumption.
  apply Z.leb_le.
Qed.

Lemma tied_rank (s : float) (x : Result.t) :
  scored_number x -> is_nan s = false ->
  tied s x = (rank (Result.similarity x) =? rank s)%Z.
Proof. intros Hx Hs. unfold tied. now apply eqb_rank. Qed.

Lemma tied_nan (s : float) (x : Result.t) : is_nan s = true -> tied s x = false.
Proof.
  intros Hs. unfold tied. destruct (Result.similarity x =? s)%float eqn:E; [|reflexivity].
  apply eqb_not_nan in E as [_ E]. congruence.
Qed.

Lemma sort_insert_sorted (x : Result.t) (l : list Result.t) :
  scored_number x -> Forall scored_number l ->
  StronglySorted non_increasing l ->
  StronglySorted non_increasing (sort_insert by_similarity x l).
Proof.
  intros Hx Hl Hs. induction Hs as [|y l Hs IH Hy]; cbn [sort_insert].
  - repeat constructor.
  - apply Forall_cons_iff in Hl as [Hy' Hl].
    rewrite by_similarity_after by assumption.
    destruct (Z.ltb_spec (rank (Result.similarity x)) (rank (Result.similarity y))) as [L|G].
    + constructor; [now apply IH|].
      rewrite Forall_forall in *. intros z Hz.
      apply sort_insert_In in Hz as [->|Hz]; [|now apply Hy].
      apply non_increasing_rank; auto. lia.
    + constructor; [now constructor|].
      constructor; [apply non_increasing_rank; auto|].
      rewrite Forall_forall in *. intros z Hz.
      specialize (Hy z Hz). specialize (Hl z Hz).
      apply non_increasing_rank in Hy; auto.
      apply non_increasing_rank; auto. lia.
Qed.

Lemma sort_sorted (l : list Result.t) :
  Forall scored_number l -> StronglySorted non_increasing (sort by_similarity l).
Proof.
  induction 1 as [|x l Hx Hl IH]; [constructor|].
  cbn [sort fold_right]. fold (sort by_similarity l).
  apply sort_insert_sorted; auto using sort_Forall.
Qed.

Lemma filter_none {A : Type} (p : A -> bool) (l : list A) :
  (forall x, p x = false) -> filter p l = [].
Proof. intros H. induction l as [|x l IH]; cbn; [|rewrite H]; auto. Qed.

(** The sort is stable: the results of one score keep their order. *)
Lemma sort_insert_tied (s : float) (x : Result.t) (l : list Result.t) :
  scored_number x -> Forall scored_number l ->
  filter (tied s) (sort_insert by_similarity x l) = filter (tied s) (x :: l).
Proof.
  intros Hx Hl. destruct (is_nan s) eqn:Hs.
  { now rewrite !filter_none by (intro; now apply tied_nan). }
  induction Hl as [|y l Hy Hl IH]; [reflexivity|].
  cbn [sort_insert]. rewrite by_similarity_after by assumption.
  destruct (Z.ltb_spec (rank (Result.similarity x)) (rank (Result.similarity y))) as [L|G];
    [|reflexivity].
  cbn [filter]. rewrite IH. cbn [filter].
  rewrite (tied_rank s x), (tied_rank s y) by assumption.
  destruct (Z.eqb_spec (rank (Result.similarity x)) (rank s)),
           (Z.eqb_spec (rank (Result.similarity y)) (rank s)); try reflexivity; lia.
Qed.

Lemma sort_tied (s : float) (l : list Result.t) :
  Forall scored_number l ->
  filter (tied s) (sort by_similarity l) = filter (tied s) l.
Proof.
  induction 1 as [|x l Hx Hl IH]; [reflexivity|].
  cbn [sort fold_right]. fold (sort by_similarity l).
  rewrite sort_insert_tied by auto using sort_Forall.
  cbn [filter]. now rewrite IH.
Qed.

(** What passes the threshold has a number for a score. *)
Lemma filter_threshold_number (threshold : float) (l : list Result.t) :
  Forall scored_number
    (filter (fun result => (threshold <=? Result.similarity result)%float) l).
Proof.
  apply Forall_forall. intros r Hr. apply filter_In in Hr as [_ Hr].
  now apply leb_not_nan in Hr as [_ Hr].
Qed.

Lemma subsequence_filter_mono {A : Type} (p : A -> bool) (l1 l2 : list A) :
  subsequence l1 l2 -> subsequence (filter p l1) (filter p l2).
Proof.
  induction 1 as [l|x l1 l2 _ IH|x l1 l2 _ IH]; cbn.
  - constructor.
  - destruct (p x); [constructor|]; assumption.
  - destruct (p x); [constructor|]; assumption.
Qed.

(** ** [search_memory] *)

Lemma search_results_sorted (q : list float) (rows : list Memory.row) (n t : float) :
  StronglySorted non_increasing (search_results q rows n t).
Proof.
  unfold search_results, slice0. apply StronglySorted_firstn, sort_sorted.
  apply filter_threshold_number.
Qed.

Lemma search_results_tied (q : list float) (rows : list Memory.row) (n t s : float) :
  subsequence (map Result.id (filter (tied s) (search_results q rows n t)))
    (map Memory.id rows).
Proof.
  replace (map Memory.id rows) with (map Result.id (map (scored q) rows))
    by (rewrite map_map; reflexivity).
  apply subsequence_map. unfold search_results, slice0.
  eapply subsequence_trans.
  { apply subsequence_filter_mono, subsequence_firstn. }
  rewrite sort_tied by apply filter_threshold_number.
  eapply subsequence_trans; apply subsequence_filter.
Qed.

(** The answers [search_memory] can give. *)
Lemma search_memory_reply (embed : string -> outcome (list float)) (db : database)
    (now query : string) (n_results threshold : option float) :
  let call := search_memory_call query n_results threshold in
  after embed call now db = db /\
  ((memories db = [] /\
    reply embed call now db = SearchResponse query [] (Some "No memories stored yet"))
   \/ (memories db <> [] /\ exists message,
        embed query = Throw message /\ reply embed call now db = ErrorResponse message)
   \/ (memories db <> [] /\ exists q,
        embed query = Return q /\
        reply embed call now db
        = SearchResponse query
            (search_results q (memories db) (n_results_or_default n_results)
               (threshold_or_default threshold)) None)).
Proof.
  unfold reply, after, CallToolRequest, dispatch, search_memory.
  destruct (memories db) as [|m rows] eqn:E; cbn [List.length Nat.eqb].
  - split; [reflexivity|]. left. auto.
  - destruct (embed query) as [q|message]; cbn [bind fst snd].
    + split; [reflexivity|]. right; right. split; [discriminate|]. now exists q.
    + split; [reflexivity|]. right; left. split; [discriminate|]. now exists message.
Qed.

(** C2, as the code has it: the results of [search_memory] are sorted by
    similarity, highest first, and results of equal similarity come in the
    order in which their memories are stored (the order of the rows of
    [memories]); nothing orders them by [updated_at]. *)
Theorem search_sorted_ties_in_stored_order
    (embed : string -> outcome (list float)) (db : database) (now query : string)
    (n_results threshold : option float) :
  let results := results_of (reply embed (search_memory_call query n_results threshold) now db) in
  StronglySorted non_increasing results /\
  forall s, subsequence (map Result.id (filter (tied s) results))
              (map Memory.id (memories db)).
Proof.
  intros results. subst results.
  destruct (search_memory_reply embed db now query n_results threshold)
    as (_ & [(_ & ->)|[(_ & message & _ & ->)|(_ & q & _ & ->)]]); cbn [results_of].
  - split; [constructor|]. intros s. constructor.
  - split; [constructor|]. intros s. constructor.
  - split; [apply search_results_sorted|]. intros s. apply search_results_tied.
Qed.

(** C2 as stated fails: two memories with the same text score the same, and
    the search returns the one saved first before the one saved last. *)
Lemma search_ties_oldest_first :
  exists r1 r2,
    results_of (reply example_embedder (search_memory_call "apple" None None)
                  "2024-10-31T10:00:00.000Z" two_apples) = [r1; r2]
    /\ (Result.similarity r1 =? Result.similarity r2)%float = true
    /\ String.ltb (Result.updated_at r1) (Result.updated_at r2) = true
    /\ ~ by_score_then_recency r1 r2.
Proof.
  eexists. eexists. split; [vm_compute; reflexivity|].
  split; [vm_compute; reflexivity|].
  split; [vm_compute; reflexivity|].
  intros [_ H]. cbn [Result.similarity Result.updated_at] in H.
  assert (E : (1 =? 1)%float = true) by (vm_compute; reflexivity).
  specialize (H E). vm_compute in H. discriminate.
Qed.

(** *** [slice(0, n_results)] *)

(** The doubles that are [>= 0]: the zeros, the positive finite ones and
    [+Infinity]. *)
Lemma nonnegative_cases (n : float) :
  (0 <=? n)%float = true ->
  (exists s, Prim2SF n = S754_zero s) \/ Prim2SF n = S754_infinity false
  \/ exists m e, Prim2SF n = S754_finite false m e.
Proof.
  rewrite FloatAxioms.leb_spec. change (Prim2SF 0) with (S754_zero false).
  destruct (Prim2SF n) as [s|[]| |[] m e]; cbn; intros; try discriminate; eauto.
Qed.

Lemma slice0_length {A : Type} (l : list A) (n : float) :
  Z.of_nat (List.length (slice0 l n))
  = slice_final (Z.of_nat (List.length l)) (ToIntegerOrInfinity n).
Proof.
  unfold slice0. rewrite length_firstn.
  set (len := List.length l).
  assert (0 <= slice_final (Z.of_nat len) (ToIntegerOrInfinity n) <= Z.of_nat len)%Z.
  { unfold slice_final. destruct (ToIntegerOrInfinity n) as [|r|]; try lia.
    destruct (Z.ltb_spec r 0); lia. }
  lia.
Qed.

(** Truncation does not go above a non-negative number. *)
Lemma truncate_below (m : positive) (e : Z) (k : Z) (n : float) :
  Prim2SF n = S754_finite false m e ->
  (k <= Z.shiftl (Zpos m) e)%Z -> (inject_Z k <= float_value n)%Q.
Proof.
  intros E Hk. unfold float_value. rewrite E. cbn [cond_Zopp].
  destruct (Z.leb_spec 0 e) as [He|He].
  - rewrite Z.shiftl_mul_pow2 in Hk by assumption.
    unfold Qle. cbn [Qnum Qden inject_Z]. lia.
  - rewrite <- (Z.opp_involutive e), Z.shiftl_opp_r, Z.shiftr_div_pow2 in Hk by lia.
    assert (P : (0 < 2 ^ (- e))%Z) by (apply Z.pow_pos_nonneg; lia).
    unfold Qle. cbn [Qnum Qden inject_Z]. rewrite Z2Pos.id by assumption.
    pose proof (Z.mul_div_le (Zpos m) (2 ^ (- e)) P).
    nia.
Qed.

Lemma slice0_at_most {A : Type} (l : list A) (n : float) :
  (0 <=? n)%float = true -> at_most (List.length (slice0 l n)) n.
Proof.
  intros H. pose proof (slice0_length l n) as L.
  unfold at_most. unfold ToIntegerOrInfinity in L.
  destruct (nonnegative_cases n H) as [[s E]|[E|(m & e & E)]]; rewrite E in *.
  - cbn [slice_final] in L. unfold float_value. rewrite E.
    unfold Qle. cbn in *. lia.
  - reflexivity.
  - cbn [slice_final cond_Zopp] in L.
    apply (truncate_below m e); [exact E|].
    pose proof (Z.shiftl_nonneg (Zpos m) e).
    destruct (Z.ltb_spec (Z.shiftl (Zpos m) e) 0); lia.
Qed.

(** C3, as the code has it: when [n_results] is at least zero (any such
    number: a fraction, [+Infinity], the default 5), [search_memory] returns
    at most [n_results] results. *)
Theorem search_count_within_nonnegative_limit
    (embed : string -> outcome (list float)) (db : database) (now query : string)
    (n_results threshold : option float) :
  (0 <=? n_results_or_default n_results)%float = true ->
  at_most
    (List.length
       (results_of (reply embed (search_memory_call query n_results threshold) now db)))
    (n_results_or_default n_results).
Proof.
  intros H.
  assert (Z : at_most 0 (n_results_or_default n_results)).
  { pose proof (slice0_at_most (@nil Result.t) _ H) as Z.
    unfold slice0 in Z. now rewrite firstn_nil in Z. }
  destruct (search_memory_reply embed db now query n_results threshold)
    as (_ & [(_ & ->)|[(_ & message & _ & ->)|(_ & q & _ & ->)]]); cbn [results_of];
    try exact Z.
  now apply slice0_at_most.
Qed.

Lemma search_count_within_nonnegative_limit_witness :
  (0 <=? n_results_or_default (Some 0x1.4p+0%float))%float = true /\
  at_most
    (List.length
       (results_of (reply example_embedder
                      (search_memory_call "apple" (Some 0x1.4p+0%float) (Some (-1)%float))
                      "2024-10-31T10:00:00.000Z" fruit_store)))
    (n_results_or_default (Some 0x1.4p+0%float)).
Proof.
  split; [vm_compute; reflexivity|].
  apply (search_count_within_nonnegative_limit example_embedder fruit_store).
  vm_compute; reflexivity.
Defined.

(** C3 as stated fails on a negative [n_results]: [slice(0, -1)] drops the
    last result and keeps the others. *)
Lemma search_negative_limit_keeps_results :
  List.length
    (results_of (reply example_embedder (search_memory_call "apple" (Some (-1)%float) None)
                   "2024-10-31T10:00:00.000Z" fruit_store)) = 1%nat
  /\ ~ at_most 1 (-1)%float.
Proof.
  split; [vm_compute; reflexivity|].
  unfold at_most, float_value. vm_compute. intros H. apply H. reflexivity.
Qed.

(** *** No validation of [n_results] and [threshold] *)

Lemma candidates_length (q : list float) (t : float) (rows : list Memory.row) :
  List.length
    (filter (fun result => (t <=? Result.similarity result)%float) (map (scored q) rows))
  = List.length (candidates q t rows).
Proof.
  unfold candidates. induction rows as [|m rows IH]; [reflexivity|].
  cbn [map filter scored Result.similarity].
  destruct (t <=? cosineSimilarity q (Memory.embedding m))%float; cbn [List.length]; now rewrite IH.
Qed.

Lemma search_results_meet_threshold (q : list float) (rows : list Memory.row) (n t : float) :
  Forall (fun r => (t <=? Result.similarity r)%float = true) (search_results q rows n t).
Proof.
  apply Forall_forall. intros r Hr. unfold search_results, slice0 in Hr.
  apply (subsequence_In _ _ _ (subsequence_firstn _ _)), sort_In, filter_In in Hr.
  apply Hr.
Qed.

(** C4, as the code has it: [search_memory] does not validate [n_results] or
    [threshold].  A call on a store that is not empty, whose query the model
    embeds, succeeds whatever the two values are; [threshold] is compared as
    given (every result has a similarity [>= threshold], and the candidates
    are the memories that meet it); [n_results] goes to [slice(0, n_results)]
    as given, so the number of results is [min(trunc(n_results), candidates)]
    for a value above [-1] and [max(candidates + trunc(n_results), 0)] for a
    value of [-1] or less. *)
Theorem search_memory_takes_arguments_as_given
    (embed : string -> outcome (list float)) (db : database) (now query : string)
    (n_results threshold : option float) (q : list float) :
  memories db <> [] ->
  embed query = Return q ->
  let call := search_memory_call query n_results threshold in
  let n := n_results_or_default n_results in
  let t := threshold_or_default threshold in
  exists results,
    reply embed call now db = SearchResponse query results None
    /\ after embed call now db = db
    /\ Forall (fun r => (t <=? Result.similarity r)%float = true) results
    /\ Z.of_nat (List.length results)
       = slice_final (Z.of_nat (List.length (candidates q t (memories db))))
           (ToIntegerOrInfinity n).
Proof.
  intros Hne Hq call n t.
  destruct (search_memory_reply embed db now query n_results threshold)
    as (Hdb & [(He & _)|[(_ & message & Hm & _)|(_ & q' & Hq' & Hr)]]);
    [contradiction|congruence|].
  assert (q' = q) by congruence. subst q'.
  exists (search_results q (memories db) n t).
  repeat split; [exact Hr|exact Hdb|apply search_results_meet_threshold|].
  unfold search_results. now rewrite slice0_length, sort_length, candidates_length.
Qed.

Lemma search_memory_takes_arguments_as_given_witness :
  memories fruit_store <> [] /\
  example_embedder "apple" = Return [1%float; 0%float] /\
  exists results,
    reply example_embedder (search_memory_call "apple" (Some (-1)%float) (Some (-1)%float))
      "2024-10-31T10:00:00.000Z" fruit_store = SearchResponse "apple" results None
    /\ after example_embedder (search_memory_call "apple" (Some (-1)%float) (Some (-1)%float))
         "2024-10-31T10:00:00.000Z" fruit_store = fruit_store
    /\ Forall (fun r => (-1 <=? Result.similarity r)%float = true) results
    /\ Z.of_nat (List.length results) = 2%Z.
Proof.
  assert (N : memories fruit_store <> []) by (vm_compute; discriminate).
  split; [exact N|]. split; [reflexivity|].
  exact (search_memory_takes_arguments_as_given example_embedder fruit_store
           "2024-10-31T10:00:00.000Z" "apple" (Some (-1)%float) (Some (-1)%float)
           [1%float; 0%float] N eq_refl).
Defined.

(** C4 as stated fails: a call with [n_results = 0], and a call with
    [threshold = 2], are out of range, yet they are answered (not rejected),
    and not with what the values clamped to [1] would give. *)
Lemma search_out_of_range_neither_rejected_nor_clamped :
  let now := "2024-10-31T10:00:00.000Z" in
  let ask n t := reply example_embedder (search_memory_call "apple" (Some n) (Some t))
                   now fruit_store in
  (out_of_range 0 default_threshold = true
   /\ success (ask 0%float default_threshold) = true
   /\ results_of (ask 0%float default_threshold) = []
   /\ List.length (results_of (ask (clamp_n_results 0) (clamp_threshold default_threshold)))
      = 1%nat)
  /\ (out_of_range 5 2 = true
      /\ success (ask 5%float 2%float) = true
      /\ results_of (ask 5%float 2%float) = []
      /\ List.length (results_of (ask (clamp_n_results 5) (clamp_threshold 2))) = 1%nat).
Proof. vm_compute. repeat split; reflexivity. Qed.

(** C5: on an empty store [search_memory] answers with success, no results
    and the message that says the store is empty, whatever the query, the
    limit and the threshold; the model is not consulted and nothing is
    written. *)
Theorem search_empty_store
    (embed : string -> outcome (list float)) (db : database) (now query : string)
    (n_results threshold : option float) :
  memories db = [] ->
  let call := search_memory_call query n_results threshold in
  reply embed call now db = SearchResponse query [] (Some "No memories stored yet")
  /\ success (reply embed call now db) = true
  /\ isError (reply embed call now db) = false
  /\ after embed call now db = db.
Proof.
  intros E call. unfold call, reply, after, CallToolRequest, dispatch, search_memory.
  rewrite E. cbn. auto.
Qed.

Lemma search_empty_store_witness :
  memories empty_database = [] /\
  reply (fun _ => Throw "model not loaded")
    (search_memory_call "anything" (Some (-3)%float) (Some 7%float)) "2024-10-28T10:00:00.000Z"
    empty_database
  = SearchResponse "anything" [] (Some "No memories stored yet").
Proof.
  split; [reflexivity|].
  exact (proj1 (search_empty_store (fun _ => Throw "model not loaded") empty_database
                  "2024-10-28T10:00:00.000Z" "anything" (Some (-3)%float) (Some 7%float)
                  eq_refl)).
Defined.

(** ** [save_memory] and [get_memory] *)

Section MemoryRows.
Variables (id text metadata now : string) (embedding : list float).

Lemma has_id_eq (r : Memory.row) : has_id id r = true <-> Memory.id r = id.
Proof. apply String.eqb_eq. Qed.

Lemma SELECT_existsb (rows : list Memory.row) :
  existsb (has_id id) rows = match SELECT_memory id rows with Some _ => true | None => false end.
Proof.
  unfold SELECT_memory. induction rows as [|r rows IH]; cbn; [reflexivity|].
  destruct (has_id id r); cbn; auto.
Qed.

Lemma UPDATE_ids (rows : list Memory.row) :
  map Memory.id (UPDATE_memory text embedding metadata now id rows) = map Memory.id rows.
Proof.
  unfold UPDATE_memory. rewrite map_map. apply map_ext. intros r.
  now destruct (has_id id r).
Qed.

Lemma UPDATE_select (rows : list Memory.row) :
  SELECT_memory id (UPDATE_memory text embedding metadata now id rows)
  = option_map (updated_row text embedding metadata now) (SELECT_memory id rows).
Proof.
  unfold SELECT_memory, UPDATE_memory. induction rows as [|r rows IH]; cbn; [reflexivity|].
  destruct (has_id id r) eqn:E; cbn.
  - unfold has_id in *. cbn. now rewrite E.
  - now rewrite E.
Qed.

Lemma UPDATE_rows_with_id (rows : list Memory.row) :
  filter (has_id id) (UPDATE_memory text embedding metadata now id rows)
  = map (updated_row text embedding metadata now) (filter (has_id id) rows).
Proof.
  unfold UPDATE_memory. induction rows as [|r rows IH]; cbn; [reflexivity|].
  destruct (has_id id r) eqn:E; cbn.
  - unfold has_id in *. cbn. rewrite E. cbn. now f_equal.
  - now rewrite E.
Qed.

Lemma SELECT_none_filter (rows : list Memory.row) :
  SELECT_memory id rows = None -> filter (has_id id) rows = [].
Proof.
  unfold SELECT_memory. induction rows as [|r rows IH]; cbn; [reflexivity|].
  destruct (has_id id r); [discriminate|auto].
Qed.

Lemma SELECT_app_new (rows : list Memory.row) (r : Memory.row) :
  SELECT_memory id rows = None -> Memory.id r = id ->
  SELECT_memory id (rows ++ [r]) = Some r.
Proof.
  unfold SELECT_memory. intros H E. induction rows as [|x rows IH]; cbn in *.
  - apply has_id_eq in E. now rewrite E.
  - destruct (has_id id x); [discriminate|auto].
Qed.

(** Under the primary key the row that [SELECT] finds is the only one. *)
Lemma SELECT_unique (rows : list Memory.row) (r : Memory.row) :
  NoDup (map Memory.id rows) -> SELECT_memory id rows = Some r ->
  filter (has_id id) rows = [r].
Proof.
  unfold SELECT_memory. induction rows as [|x rows IH]; cbn; [discriminate|].
  intros N H. apply NoDup_cons_iff in N as [Nx N].
  destruct (has_id id x) eqn:E.
  - injection H as <-. f_equal.
    apply has_id_eq in E.
    destruct (filter (has_id id) rows) as [|y l] eqn:F; [reflexivity|].
    exfalso. apply Nx.
    assert (In y (filter (has_id id) rows)) as Hy by (rewrite F; now left).
    apply filter_In in Hy as [Hy1 Hy2]. apply has_id_eq in Hy2.
    rewrite E, <- Hy2. now apply in_map.
  - auto.
Qed.
End MemoryRows.

(** What a save that the model serves leaves in the store. *)
Lemma save_memory_effect (embed : string -> outcome (list float)) (db : database)
    (id text : string) (metadata : option string) (now : string) (e : list float) :
  embed text = Return e ->
  let call := save_memory_call id text metadata in
  success (reply embed call now db) = true /\
  exists row,
    SELECT_memory id (memories (after embed call now db)) = Some row
    /\ Memory.text row = text
    /\ Memory.updated_at row = now
    /\ Memory.created_at row
       = match SELECT_memory id (memories db) with
         | Some old => Memory.created_at old
         | None => now
         end
    /\ (primary_key db ->
        primary_key (after embed call now db)
        /\ rows_with_id id (after embed call now db) = [row]).
Proof.
  intros He call. unfold call, reply, after, CallToolRequest, dispatch, save_memory.
  rewrite He. cbn [bind].
  destruct (SELECT_memory id (memories db)) as [old|] eqn:S.
  - cbn [fst snd success memories]. split; [reflexivity|].
    eexists. rewrite UPDATE_select, S. cbn [option_map].
    repeat split.
    + unfold primary_key in *. cbn [memories]. now rewrite UPDATE_ids.
    + unfold rows_with_id. cbn [memories].
      rewrite UPDATE_rows_with_id, (SELECT_unique id _ old) by assumption.
      reflexivity.
  - unfold INSERT_memory. cbn [Memory.id]. rewrite SELECT_existsb, S. cbn [bind fst snd success memories].
    split; [reflexivity|].
    eexists. rewrite SELECT_app_new by (assumption || reflexivity).
    repeat split.
    + unfold primary_key in *. cbn [memories]. rewrite map_app. cbn [map Memory.id].
      apply NoDup_app; [assumption|repeat constructor; auto|].
      intros a Ha [<-|[]].
      apply in_map_iff in Ha as (r & Hr & Hin).
      apply (find_none _ _ S) in Hin. apply (has_id_eq id) in Hr. congruence.
    + unfold rows_with_id. cbn [memories].
      rewrite filter_app, SELECT_none_filter by assumption. cbn [filter app].
      unfold has_id. cbn [Memory.id]. now rewrite String.eqb_refl.
Qed.

(** A save answers with success only when the model gave an embedding. *)
Lemma save_memory_success (embed : string -> outcome (list float)) (db : database)
    (id text : string) (metadata : option string) (now : string) :
  success (reply embed (save_memory_call id text metadata) now db) = true ->
  exists e, embed text = Return e.
Proof.
  unfold reply, CallToolRequest, dispatch, save_memory.
  destruct (embed text) as [e|message]; cbn; [eauto|discriminate].
Qed.

(** C1: two saves of one id, both answered with success, leave exactly one
    row for the id; it has the second text, the [created_at] that the row had
    after the first save (the time of the first save when the id was new, the
    earlier [created_at] when it was not) and the time of the second save as
    [updated_at]. *)
Theorem save_twice_one_row
    (embed : string -> outcome (list float)) (db : database)
    (id text1 text2 : string) (metadata1 metadata2 : option string) (now1 now2 : string) :
  primary_key db ->
  let db1 := after embed (save_memory_call id text1 metadata1) now1 db in
  let db2 := after embed (save_memory_call id text2 metadata2) now2 db1 in
  success (reply embed (save_memory_call id text1 metadata1) now1 db) = true ->
  success (reply embed (save_memory_call id text2 metadata2) now2 db1) = true ->
  exists first row,
    rows_with_id id db1 = [first]
    /\ rows_with_id id db2 = [row]
    /\ Memory.text row = text2
    /\ Memory.created_at row = Memory.created_at first
    /\ Memory.updated_at row = now2
    /\ (rows_with_id id db = [] -> Memory.created_at first = now1).
Proof.
  intros PK db1 db2 S1 S2.
  apply save_memory_success in S1 as [e1 E1].
  apply save_memory_success in S2 as [e2 E2].
  destruct (save_memory_effect embed db id text1 metadata1 now1 e1 E1)
    as (_ & first & Sel1 & _ & _ & C1 & K1).
  destruct (K1 PK) as [PK1 R1].
  destruct (save_memory_effect embed db1 id text2 metadata2 now2 e2 E2)
    as (_ & row & Sel2 & T2 & U2 & C2 & K2).
  destruct (K2 PK1) as [_ R2].
  fold db1 in Sel1, R1. rewrite Sel1 in C2.
  exists first, row. repeat split; auto.
  intros Hnone. destruct (SELECT_memory id (memories db)) as [old|] eqn:S; [|exact C1].
  apply (SELECT_unique id _ old PK) in S. unfold rows_with_id in Hnone. congruence.
Qed.

Lemma save_twice_one_row_witness :
  primary_key two_apples /\
  success (reply example_embedder (save_memory_call "n3" "banana" None)
             "2024-11-01T10:00:00.000Z" two_apples) = true /\
  success (reply example_embedder (save_memory_call "n3" "cherry" None)
             "2024-11-02T10:00:00.000Z"
             (after example_embedder (save_memory_call "n3" "banana" None)
                "2024-11-01T10:00:00.000Z" two_apples)) = true /\
  exists first row,
    rows_with_id "n3"
      (after example_embedder (save_memory_call "n3" "banana" None)
         "2024-11-01T10:00:00.000Z" two_apples) = [first]
    /\ rows_with_id "n3"
         (after example_embedder (save_memory_call "n3" "cherry" None)
            "2024-11-02T10:00:00.000Z"
            (after example_embedder (save_memory_call "n3" "banana" None)
               "2024-11-01T10:00:00.000Z" two_apples)) = [row]
    /\ Memory.text row = "cherry"
    /\ Memory.created_at row = Memory.created_at first
    /\ Memory.updated_at row = "2024-11-02T10:00:00.000Z"
    /\ (rows_with_id "n3" two_apples = [] ->
        Memory.created_at first = "2024-11-01T10:00:00.000Z").
Proof.
  assert (PK : primary_key two_apples).
  { unfold primary_key. vm_compute. repeat constructor; cbn; intuition discriminate. }
  split; [exact PK|]. split; [reflexivity|]. split; [reflexivity|].
  exact (save_twice_one_row example_embedder two_apples "n3" "banana" "cherry" None None
           "2024-11-01T10:00:00.000Z" "2024-11-02T10:00:00.000Z" PK eq_refl eq_refl).
Defined.

(** C6: after a save that is answered with success, [get_memory] of the same
    id answers with success and the memory it returns has the saved text. *)
Theorem save_then_get_returns_text
    (embed : string -> outcome (list float)) (db : database)
    (id text : string) (metadata : option string) (now1 now2 : string) :
  success (reply embed (save_memory_call id text metadata) now1 db) = true ->
  let db1 := after embed (save_memory_call id text metadata) now1 db in
  exists memory,
    reply embed (get_memory_call id) now2 db1 = GetResponse memory
    /\ success (reply embed (get_memory_call id) now2 db1) = true
    /\ Found.id memory = id
    /\ Found.text memory = text.
Proof.
  intros S db1. apply save_memory_success in S as [e E].
  destruct (save_memory_effect embed db id text metadata now1 e E)
    as (_ & row & Sel & T & _).
  fold db1 in Sel.
  unfold reply, CallToolRequest, dispatch, get_memory. rewrite Sel. cbn [fst].
  eexists. repeat split; cbn [Found.id Found.text]; [|exact T].
  apply find_some in Sel as [_ Sel]. now apply has_id_eq in Sel.
Qed.

Lemma save_then_get_returns_text_witness :
  success (reply example_embedder (save_memory_call "x" "hello" None)
             "2024-11-01T10:00:00.000Z" two_apples) = true /\
  exists memory,
    reply example_embedder (get_memory_call "x") "2024-11-01T10:00:01.000Z"
      (after example_embedder (save_memory_call "x" "hello" None)
         "2024-11-01T10:00:00.000Z" two_apples) = GetResponse memory
    /\ success (reply example_embedder (get_memory_call "x") "2024-11-01T10:00:01.000Z"
                  (after example_embedder (save_memory_call "x" "hello" None)
                     "2024-11-01T10:00:00.000Z" two_apples)) = true
    /\ Found.id memory = "x"
    /\ Found.text memory = "hello".
Proof.
  split; [reflexivity|].
  exact (save_then_get_returns_text example_embedder two_apples "x" "hello" None
           "2024-11-01T10:00:00.000Z" "2024-11-01T10:00:01.000Z" eq_refl).
Defined.

(** ** The biography *)


Lemma Field_eqb_eq (f g : Field.t) : Field.eqb f g = true <-> f = g.
Proof. destruct f, g; cbn; split; intros; congruence. Qed.

(** Every value that [set_user_bio] prepares is [null] or a string, so the
    driver binds one parameter for it. *)
Lemma bound_prepared (bioFields : BioFields.t) (existing : option Bio.row) (f : Field.t) :
  bound_values (prepared bioFields existing f) = [written bioFields existing f].
Proof.
  unfold written, prepared, processArray, processValue, existing_column, js_or.
  destruct (BioFields.get f bioFields) as [| |s|items], (Field.is_array f);
    cbn [is_null strict_equals_string is_undefined Array_isArray orb negb JSON_stringify];
    try reflexivity;
    try (destruct (String.eqb s "null"); reflexivity);
    destruct existing as [r|]; try reflexivity;
    destruct (Bio.get f r) as [[|c s']|]; reflexivity.
Qed.

Lemma set_user_bio_effect (embed : string -> outcome (list float)) (db : database)
    (now : string) (bioFields : BioFields.t) :
  let call := set_user_bio_call bioFields in
  exists row,
    CallToolRequest embed call now db
    = (MessageResponse true
         (match user_bio db with
          | Some _ => "User biography updated"
          | None => "User biography created"
          end),
       {| memories := memories db; user_bio := Some row |})
    /\ (forall f, Bio.get f row = written bioFields (user_bio db) f)
    /\ Bio.updated_at row = now
    /\ Bio.created_at row = match user_bio db with
                            | Some old => Bio.created_at old
                            | None => now
                            end.
Proof.
  unfold CallToolRequest, dispatch, set_user_bio, bind_parameters.
  cbn [map List.concat app]. rewrite !bound_prepared.
  destruct (user_bio db) as [old|]; cbn [app List.length Nat.compare bind];
    eexists; (split; [reflexivity|]);
    (split; [intros f; destruct f; reflexivity|split; reflexivity]).
Qed.

(** What is written, case by case on the value supplied. *)
Lemma written_cleared (bioFields : BioFields.t) (existing : option Bio.row) (f : Field.t) :
  BioFields.get f bioFields = Null \/ BioFields.get f bioFields = Str "null" ->
  written bioFields existing f = None.
Proof.
  unfold written, prepared, processArray, processValue.
  intros [-> | ->]; destruct (Field.is_array f); reflexivity.
Qed.

Lemma written_omitted (bioFields : BioFields.t) (existing : option Bio.row) (f : Field.t) :
  BioFields.get f bioFields = Undefined ->
  written bioFields existing f
  = match previous existing f with
    | Some (String _ _ as s) => Some s
    | _ => None
    end.
Proof.
  unfold written, prepared, processArray, processValue, existing_column, previous, js_or.
  intros ->. destruct (Field.is_array f), existing as [r|]; cbn; try reflexivity;
    destruct (Bio.get f r) as [[|c s]|]; reflexivity.
Qed.

Lemma written_supplied (bioFields : BioFields.t) (existing : option Bio.row) (f : Field.t) :
  BioFields.get f bioFields <> Undefined ->
  BioFields.get f bioFields <> Null ->
  BioFields.get f bioFields <> Str "null" ->
  written bioFields existing f = stored_text f (BioFields.get f bioFields).
Proof.
  unfold written, prepared, processArray, processValue, stored_text.
  destruct (BioFields.get f bioFields) as [| |s|items]; intros U N S; try congruence.
  - assert (E : String.eqb s "null" = false).
    { apply String.eqb_neq. congruence. }
    destruct (Field.is_array f); cbn; rewrite E; reflexivity.
  - destruct (Field.is_array f); reflexivity.
Qed.

Lemma written_rule (bioFields : BioFields.t) (existing : option Bio.row) (f : Field.t) :
  (BioFields.get f bioFields = Undefined -> previous existing f <> Some EmptyString) ->
  written bioFields existing f = clearing_rule f existing (BioFields.get f bioFields).
Proof.
  intros H. unfold clearing_rule, three_way_rule.
  destruct (BioFields.get f bioFields) as [| |s|items] eqn:E.
  - rewrite written_omitted by assumption. cbn.
    specialize (H eq_refl). destruct (previous existing f) as [[|c s]|]; congruence.
  - cbn. apply written_cleared. auto.
  - cbn [strict_equals_string]. destruct (String.eqb_spec s "null") as [->|N].
    + apply written_cleared. auto.
    + rewrite written_supplied; rewrite E; congruence.
  - cbn [strict_equals_string]. rewrite written_supplied; rewrite E; congruence.
Qed.

(** C7, as the code has it: [set_user_bio] always succeeds and treats the
    eight fields alike.  A field given as [null] or as the string ["null"]
    becomes absent; a field left out keeps the value it had (absent when the
    record is being created), for a stored value that is not the empty
    string; any other value given, an empty array included, replaces the
    stored value (arrays as their JSON text).  In particular
    [set_user_bio({nombre:"A"})] then [set_user_bio({ocupacion:"B"})] leaves
    a record with both. *)
Theorem set_user_bio_field_rule (embed : string -> outcome (list float)) :
  (forall (db : database) (now : string) (bioFields : BioFields.t),
    exists row,
      after embed (set_user_bio_call bioFields) now db
      = {| memories := memories db; user_bio := Some row |}
      /\ success (reply embed (set_user_bio_call bioFields) now db) = true
      /\ forall f,
           (BioFields.get f bioFields = Undefined ->
            previous (user_bio db) f <> Some EmptyString) ->
           Bio.get f row = clearing_rule f (user_bio db) (BioFields.get f bioFields))
  /\ (forall (db : database) (now1 now2 : string),
       exists row,
         user_bio (after embed (set_user_bio_call (only Field.ocupacion (Str "B"))) now2
                     (after embed (set_user_bio_call (only Field.nombre (Str "A"))) now1 db))
         = Some row
         /\ Bio.nombre row = Some "A"
         /\ Bio.ocupacion row = Some "B").
Proof.
  split.
  - intros db now bioFields.
    destruct (set_user_bio_effect embed db now bioFields) as (row & E & W & _).
    exists row. unfold after, reply. rewrite E. cbn [fst snd success].
    repeat split. intros f H. rewrite W. now apply written_rule.
  - intros db now1 now2.
    destruct (set_user_bio_effect embed db now1 (only Field.nombre (Str "A")))
      as (row1 & E1 & W1 & _).
    set (db1 := after embed (set_user_bio_call (only Field.nombre (Str "A"))) now1 db).
    assert (B1 : user_bio db1 = Some row1) by (unfold db1, after; now rewrite E1).
    destruct (set_user_bio_effect embed db1 now2 (only Field.ocupacion (Str "B")))
      as (row2 & E2 & W2 & _).
    exists row2. unfold after at 1. rewrite E2. cbn [snd user_bio].
    split; [reflexivity|].
    change (Bio.nombre row2) with (Bio.get Field.nombre row2).
    change (Bio.ocupacion row2) with (Bio.get Field.ocupacion row2).
    rewrite !W2, B1. split.
    + rewrite written_omitted by reflexivity. cbn [previous].
      rewrite W1. reflexivity.
    + reflexivity.
Qed.

(** C7 as stated fails twice: the string ["null"] is a value that is given
    and yet is not stored, and a field left out does not keep an empty
    string that was stored. *)
Lemma set_user_bio_breaks_three_way_rule :
  (exists row,
     user_bio (after example_embedder (set_user_bio_call (only Field.nombre (Str "null")))
                 "2024-10-29T10:00:00.000Z" bio_ana) = Some row
     /\ Bio.get Field.nombre row = None
     /\ three_way_rule Field.nombre (user_bio bio_ana) (Str "null") = Some "null")
  /\ (exists row,
        user_bio (after example_embedder (set_user_bio_call (only Field.ocupacion (Str "B")))
                    "2024-10-29T10:00:00.000Z" bio_blank_name) = Some row
        /\ Bio.get Field.nombre row = None
        /\ three_way_rule Field.nombre (user_bio bio_blank_name) Undefined
           = Some EmptyString).
Proof. split; eexists; repeat split; reflexivity. Qed.

(** C8: without a biography record [update_user_bio] answers with
    [success: false] and the message that there is none, and the database is
    left as it was: no record is created, no field is written. *)
Theorem update_user_bio_without_record
    (embed : string -> outcome (list float)) (db : database) (now : string)
    (field : Field.t) (value : js_value) :
  user_bio db = None ->
  reply embed (update_user_bio_call field value) now db
  = MessageResponse false "No user biography exists. Use set_user_bio to create one first."
  /\ success (reply embed (update_user_bio_call field value) now db) = false
  /\ after embed (update_user_bio_call field value) now db = db.
Proof.
  intros E. unfold reply, after, CallToolRequest, dispatch, update_user_bio.
  rewrite E. cbn. auto.
Qed.

Lemma update_user_bio_without_record_witness :
  user_bio two_apples = None /\
  reply example_embedder (update_user_bio_call Field.idiomas (Arr ["es"; "en"]))
    "2024-11-01T10:00:00.000Z" two_apples
  = MessageResponse false "No user biography exists. Use set_user_bio to create one first."
  /\ after example_embedder (update_user_bio_call Field.idiomas (Arr ["es"; "en"]))
       "2024-11-01T10:00:00.000Z" two_apples = two_apples.
Proof.
  split; [reflexivity|].
  destruct (update_user_bio_without_record example_embedder two_apples
              "2024-11-01T10:00:00.000Z" Field.idiomas (Arr ["es"; "en"]) eq_refl)
    as (R & _ & A).
  exact (conj R A).
Defined.

Lemma set_user_bio_field_rule_witness :
  (BioFields.get Field.nombre (only Field.ocupacion (Str "B")) = Undefined ->
   previous (user_bio bio_ana) Field.nombre <> Some EmptyString)
  /\ exists row,
       user_bio (after example_embedder (set_user_bio_call (only Field.ocupacion (Str "B")))
                   "2024-10-29T10:00:00.000Z" bio_ana) = Some row
       /\ Bio.get Field.nombre row = Some "Ana"
       /\ Bio.get Field.ocupacion row = Some "B"
       /\ Bio.get Field.idiomas row = None.
Proof.
  assert (H : BioFields.get Field.nombre (only Field.ocupacion (Str "B")) = Undefined ->
              previous (user_bio bio_ana) Field.nombre <> Some EmptyString)
    by (intros _; discriminate).
  split; [exact H|].
  destruct (proj1 (set_user_bio_field_rule example_embedder) bio_ana
              "2024-10-29T10:00:00.000Z" (only Field.ocupacion (Str "B")))
    as (row & A & _ & R).
  exists row. rewrite A. split; [reflexivity|].
  rewrite (R Field.nombre H), (R Field.ocupacion), (R Field.idiomas) by discriminate.
  repeat split; reflexivity.
Defined.

(** ** The primary key is an invariant of the server *)

Lemma NoDup_ids_filter (p : Memory.row -> bool) (rows : list Memory.row) :
  NoDup (map Memory.id rows) -> NoDup (map Memory.id (filter p rows)).
Proof.
  induction rows as [|r rows IH]; cbn; [auto|].
  intros N. apply NoDup_cons_iff in N as [Nr N].
  destruct (p r); cbn; [|auto].
  constructor; [|auto]. intros H. apply Nr.
  apply in_map_iff in H as (x & E & Hx). apply filter_In in Hx as [Hx _].
  rewrite <- E. now apply in_map.
Qed.

Lemma primary_key_preserved (embed : string -> outcome (list float)) (call : tool_call)
    (now : string) (db : database) :
  primary_key db -> primary_key (after embed call now db).
Proof.
  intros PK. destruct call as [id text metadata|query n t|id|id|bioFields|field value].
  - destruct (embed text) as [e|message] eqn:E.
    + destruct (save_memory_effect embed db id text metadata now e E)
        as (_ & row & _ & _ & _ & _ & K).
      now apply K.
    + unfold after, CallToolRequest, dispatch, save_memory. now rewrite E.
  - now rewrite (proj1 (search_memory_reply embed db now query n t)).
  - unfold after, CallToolRequest, dispatch, get_memory.
    now destruct (SELECT_memory id (memories db)).
  - unfold after, CallToolRequest, dispatch, delete_memory, DELETE_memory.
    destruct (Nat.eqb _ 0); cbn [snd]; unfold primary_key; cbn [memories];
      now apply NoDup_ids_filter.
  - destruct (set_user_bio_effect embed db now bioFields) as (row & E & _).
    unfold after. rewrite E. exact PK.
  - unfold after, CallToolRequest, dispatch, update_user_bio.
    destruct (user_bio db); [|exact PK].
    destruct (bind_parameters _ _); exact PK.
Qed.

Lemma primary_key_empty : primary_key empty_database.
Proof. constructor. Qed.





(** ** [cosineSimilarity] *)

Section CosineFacts.
Context {num : Type}.
Variables (zero undefined : num).
Variables (add mul div : num -> num -> num) (sqrt : num -> num).

(** The dot product of a vector with itself is its sum of squares, step
    by step. *)
Lemma dot_self_from (p a : list num) (acc : num) :
  reduce_from (dot_step undefined add mul (p ++ a)) (List.length p) a acc
  = reduce_from (square_step add mul) (List.length p) a acc.
Proof.
  revert p acc. induction a as [|x a IH]; intros p acc; [reflexivity|].
  cbn [reduce_from].
  replace (dot_step undefined add mul (p ++ x :: a) acc x (List.length p))
    with (square_step add mul acc x (List.length p))
    by (unfold dot_step, square_step, index; now rewrite nth_middle).
  specialize (IH (p ++ [x]) (square_step add mul acc x (List.length p))).
  rewrite <- app_assoc, length_app, Nat.add_1_r in IH. exact IH.
Qed.

Lemma cosine_self (a : list num) :
  cosine zero undefined add mul div sqrt a a
  = div (sum_of_squares zero add mul a)
      (mul (sqrt (sum_of_squares zero add mul a)) (sqrt (sum_of_squares zero add mul a))).
Proof.
  unfold cosine, sum_of_squares, reduce. f_equal.
  exact (dot_self_from [] a zero).
Qed.

Hypothesis mul_comm : forall x y, mul x y = mul y x.

(** With a commutative product the two dot products go through the same
    partial sums. *)
Lemma dot_comm_from (pa pb a b : list num) (acc : num) :
  List.length a = List.length b -> List.length pa = List.length pb ->
  reduce_from (dot_step undefined add mul (pb ++ b)) (List.length pa) a acc
  = reduce_from (dot_step undefined add mul (pa ++ a)) (List.length pb) b acc.
Proof.
  revert pa pb b acc. induction a as [|x a IH]; intros pa pb [|y b] acc La Lp;
    try discriminate; [reflexivity|].
  cbn [reduce_from].
  assert (Ey : index undefined (pb ++ y :: b) (List.length pa) = y)
    by (unfold index; rewrite Lp; apply nth_middle).
  assert (Ex : index undefined (pa ++ x :: a) (List.length pb) = x)
    by (unfold index; rewrite <- Lp; apply nth_middle).
  unfold dot_step at 2 4. rewrite Ex, Ey, (mul_comm y x).
  specialize (IH (pa ++ [x]) (pb ++ [y]) b (add acc (mul x y))).
  rewrite <- !app_assoc, !length_app, !Nat.add_1_r in IH.
  apply IH; cbn in *; congruence.
Qed.

Lemma cosine_comm (a b : list num) :
  List.length a = List.length b ->
  cosine zero undefined add mul div sqrt a b = cosine zero undefined add mul div sqrt b a.
Proof.
  intros L. unfold cosine, reduce.
  rewrite (mul_comm (sqrt (sum_of_squares zero add mul a))). f_equal.
  exact (dot_comm_from [] [] a b zero L eq_refl).
Qed.
End CosineFacts.

Lemma float_mul_comm (x y : float) : (x * y = y * x)%float.
Proof.
  apply Prim2SF_inj. rewrite !mul_spec. unfold SF64mul, SFmul.
  destruct (Prim2SF x) as [sx|sx| |sx mx ex], (Prim2SF y) as [sy|sy| |sy my ey];
    rewrite ?(xorb_comm sx sy); try reflexivity.
  now rewrite (Pos.mul_comm mx my), (Z.add_comm ex ey).
Qed.

Section SelfSimilarity.
Local Open Scope float_scope.

(** A sum of squares is never negative. *)
Lemma binary_round_aux_not_negative m e l :
  SFltb (binary_round_aux prec emax false m e l) (S754_zero false) = false.
Proof.
  unfold binary_round_aux.
  destruct (shr_fexp prec emax m e l) as [mrs' e'].
  destruct (shr_fexp prec emax _ e' loc_Exact) as [mrs'' e''].
  destruct (shr_m mrs'') as [|q|q]; try reflexivity.
  destruct (Z.leb e'' (emax - prec)); reflexivity.
Qed.

Lemma mul_self_not_negative x : (x * x <? 0) = false.
Proof.
  rewrite FloatAxioms.ltb_spec, mul_spec. change (Prim2SF 0) with (S754_zero false).
  unfold SF64mul, SFmul.
  destruct (Prim2SF x) as [s|s| |s m e]; rewrite ?xorb_nilpotent; try reflexivity.
  apply binary_round_aux_not_negative.
Qed.

Lemma add_not_negative x y :
  (x <? 0) = false -> (y <? 0) = false -> (x + y <? 0) = false.
Proof.
  rewrite !FloatAxioms.ltb_spec, add_spec. change (Prim2SF 0) with (S754_zero false).
  unfold SF64add, SFadd.
  destruct (Prim2SF x) as [sx|sx| |sx mx ex], (Prim2SF y) as [sy|sy| |sy my ey];
    try destruct sx; try destruct sy; try discriminate; try reflexivity; intros _ _.
  cbn [cond_Zopp]. cbn [Z.add binary_normalize]. unfold binary_round.
  destruct (shl_align _ _ _) as [mz ez].
  apply binary_round_aux_not_negative.
Qed.

Lemma squares_not_negative (a : list float) : forall (i : nat) (acc : float),
  (acc <? 0) = false ->
  (reduce_from (square_step PrimFloat.add PrimFloat.mul) i a acc <? 0) = false.
Proof.
  induction a as [|x a IH]; intros i acc H; cbn [reduce_from]; [exact H|].
  apply IH. unfold square_step. apply add_not_negative; [exact H|apply mul_self_not_negative].
Qed.

(** A double that is neither zero, infinite, NaN nor negative. *)
Lemma finite_positive_spec (s : float) :
  is_zero s = false -> is_finite s = true -> (s <? 0) = false ->
  exists m e, Prim2SF s = S754_finite false m e.
Proof.
  unfold is_zero, is_finite, is_nan, is_infinity.
  rewrite !FloatAxioms.eqb_spec, FloatAxioms.ltb_spec, abs_spec.
  change (Prim2SF infinity) with (S754_infinity false).
  change (Prim2SF 0) with (S754_zero false).
  destruct (Prim2SF s) as [sg|sg| |sg m e]; try destruct sg; try discriminate.
  intros _ _ _. eauto.
Qed.

(** [s / (sqrt s * sqrt s)] for a positive double [s]. *)
Lemma self_similarity_near_one (s : float) (m : positive) (e : Z) :
  Prim2SF s = S754_finite false m e ->
  within 0x1p-49 (s / (PrimFloat.sqrt s * PrimFloat.sqrt s)) 1 = true.
Proof.
  intros Hs.
  pose proof (Prim2SF_valid s) as Vs. rewrite Hs in Vs.
  destruct (SFsqrt_finite m e Vs) as (mr & er & Hr & Bmr & Ber & Hsh & HA).
  assert (Pr : Prim2SF (PrimFloat.sqrt s) = S754_finite false mr er)
    by (rewrite sqrt_spec, Hs; exact Hr).
  destruct (SFmul_square m e mr er Vs Bmr Ber Hsh HA) as (mp & ep & Hp & Bep & Hnear).
  set (p := PrimFloat.sqrt s * PrimFloat.sqrt s).
  assert (Pp : Prim2SF p = S754_finite false mp ep)
    by (unfold p; rewrite mul_spec, Pr; exact Hp).
  pose proof (Prim2SF_valid p) as Vp. rewrite Pp in Vp.
  destruct (SFdiv_near_one m e mp ep (e - 2 * er) (ep - 2 * er) Vs Vp
              ltac:(lia) ltac:(lia) ltac:(lia) Hnear) as (mc & ec & Hc & Bec & Hrank).
  assert (Pc : Prim2SF (s / p) = S754_finite false mc ec)
    by (rewrite div_spec, Hs, Pp; exact Hc).
  assert (Nc : is_nan (s / p) = false) by (rewrite is_nan_spec, Pc; reflexivity).
  assert (Rc : rank (s / p) = (Zpos mc * 2 ^ (ec + 1074))%Z).
  { unfold rank. rewrite Pc. reflexivity. }
  unfold within.
  change (1 - 0x1p-49) with 0x1.ffffffffffff0p-1.
  change (1 + 0x1p-49) with 0x1.0000000000008p+0.
  rewrite !leb_rank by (try exact Nc; reflexivity).
  rewrite Rc.
  change (rank 0x1.ffffffffffff0p-1) with ((2 ^ 53 - 16) * 2 ^ 1021)%Z.
  change (rank 0x1.0000000000008p+0) with ((2 ^ 53 + 16) * 2 ^ 1021)%Z.
  apply andb_true_intro. split; apply Z.leb_le; lia.
Qed.

(** [s / (sqrt s * sqrt s)] when [s] is a zero, an infinity or NaN. *)
Lemma self_similarity_not_a_number (s : float) :
  is_zero s = true \/ is_finite s = false ->
  s / (PrimFloat.sqrt s * PrimFloat.sqrt s) = nan.
Proof.
  unfold is_zero, is_finite, is_infinity.
  rewrite is_nan_spec, !FloatAxioms.eqb_spec, abs_spec.
  change (Prim2SF infinity) with (S754_infinity false).
  change (Prim2SF 0) with (S754_zero false).
  intros H. apply Prim2SF_inj.
  rewrite div_spec, mul_spec, sqrt_spec. change (Prim2SF nan) with S754_nan.
  destruct (Prim2SF s) as [sg|sg| |sg m e]; try destruct sg; try reflexivity;
    destruct H as [H|H]; discriminate H.
Qed.

End SelfSimilarity.

(** C9, as the code has it: [cosineSimilarity] is symmetric on vectors of
    equal length, bit for bit.  On [(a, a)] it computes [s / (sqrt s * sqrt s)]
    from the rounded sum of squares [s] of [a].  When [s] is neither zero,
    infinite nor NaN the result is within [2^-49] of 1; when [s] is zero
    (every square underflows), infinite (a square overflows) or NaN, it is
    NaN. *)
Theorem cosineSimilarity_symmetric_self :
  (forall a b : list float,
      List.length a = List.length b -> cosineSimilarity a b = cosineSimilarity b a)
  /\ (forall a : list float,
        let s := sum_of_squares 0%float PrimFloat.add PrimFloat.mul a in
        (is_zero s = false -> is_finite s = true ->
         within 0x1p-49 (cosineSimilarity a a) 1 = true)
        /\ (is_zero s = true \/ is_finite s = false -> cosineSimilarity a a = nan)).
Proof.
  split.
  - intros a b L. apply cosine_comm; [exact float_mul_comm|exact L].
  - intros a s.
    assert (E : cosineSimilarity a a = (s / (PrimFloat.sqrt s * PrimFloat.sqrt s))%float)
      by apply cosine_self.
    rewrite E. split.
    + intros Z F.
      assert (P : (s <? 0)%float = false) by (apply squares_not_negative; reflexivity).
      destruct (finite_positive_spec s Z F P) as (m & e & Hs).
      exact (self_similarity_near_one s m e Hs).
    + apply self_similarity_not_a_number.
Qed.

Lemma cosineSimilarity_symmetric_self_witness :
  cosineSimilarity [3%float; 4%float] [4%float; 3%float]
  = cosineSimilarity [4%float; 3%float] [3%float; 4%float]
  /\ within 0x1p-49 (cosineSimilarity [1%float; 1%float] [1%float; 1%float]) 1 = true
  /\ cosineSimilarity [0x1p-600%float] [0x1p-600%float] = nan.
Proof.
  destruct cosineSimilarity_symmetric_self as (S & F).
  split; [exact (S [3%float; 4%float] [4%float; 3%float] eq_refl)|].
  split.
  - apply (F [1%float; 1%float]); reflexivity.
  - apply (F [0x1p-600%float]). left. reflexivity.
Defined.

(** C9 as stated fails on a vector that is not zero and whose squares
    underflow, or overflow: the similarity with itself is NaN, which is
    within no tolerance of 1. *)
Lemma cosineSimilarity_self_not_a_number :
  ((0x1p-600 =? 0)%float = false
   /\ cosineSimilarity [0x1p-600%float] [0x1p-600%float] = nan
   /\ forall tolerance,
        (abs (cosineSimilarity [0x1p-600%float] [0x1p-600%float] - 1) <=? tolerance)%float
        = false
        /\ within tolerance (cosineSimilarity [0x1p-600%float] [0x1p-600%float]) 1 = false)
  /\ ((0x1p+600 =? 0)%float = false
      /\ cosineSimilarity [0x1p+600%float] [0x1p+600%float] = nan).
Proof.
  assert (E : cosineSimilarity [0x1p-600%float] [0x1p-600%float] = nan)
    by (vm_compute; reflexivity).
  repeat split; try (vm_compute; reflexivity); rewrite E.
  - change (abs (nan - 1))%float with nan.
    rewrite FloatAxioms.leb_spec. reflexivity.
  - unfold within. rewrite FloatAxioms.leb_spec. change (Prim2SF nan) with S754_nan.
    unfold SFleb, SFcompare. now destruct (Prim2SF (1 - tolerance)).
Qed.

(** * Further properties of the handlers *)

(** ** Rows of other ids *)

Lemma has_id_other (id id' : string) (r : Memory.row) :
  id' <> id -> has_id id r = true -> has_id id' r = false.
Proof.
  unfold has_id. intros N H. apply String.eqb_eq in H. apply String.eqb_neq. congruence.
Qed.

Lemma filter_without_missing (id : string) (rows : list Memory.row) :
  SELECT_memory id rows = None -> filter (fun r => negb (has_id id r)) rows = rows.
Proof.
  unfold SELECT_memory. induction rows as [|r rows IH]; cbn; [reflexivity|].
  destruct (has_id id r); [discriminate|]. intros H. cbn. now rewrite IH.
Qed.

Lemma SELECT_after_DELETE (id : string) (rows : list Memory.row) :
  SELECT_memory id (filter (fun r => negb (has_id id r)) rows) = None.
Proof.
  unfold SELECT_memory. induction rows as [|r rows IH]; cbn; [reflexivity|].
  destruct (has_id id r) eqn:E; cbn; [exact IH|]. now rewrite E.
Qed.

Lemma SELECT_other_after_DELETE (id id' : string) (rows : list Memory.row) :
  id' <> id ->
  SELECT_memory id' (filter (fun r => negb (has_id id r)) rows) = SELECT_memory id' rows.
Proof.
  intros N. unfold SELECT_memory. induction rows as [|r rows IH]; cbn; [reflexivity|].
  destruct (has_id id r) eqn:E; cbn.
  - now rewrite (has_id_other id id' r N E).
  - now rewrite IH.
Qed.

Lemma others_after_UPDATE (id text metadata now : string) (embedding : list float)
    (rows : list Memory.row) :
  filter (fun r => negb (has_id id r)) (UPDATE_memory text embedding metadata now id rows)
  = filter (fun r => negb (has_id id r)) rows.
Proof.
  unfold UPDATE_memory. induction rows as [|r rows IH]; cbn; [reflexivity|].
  destruct (has_id id r) eqn:E; cbn.
  - unfold has_id in *. cbn. now rewrite E.
  - rewrite E. cbn. now rewrite IH.
Qed.

Lemma SELECT_Some_rows_with_id (id : string) (rows : list Memory.row) :
  SELECT_memory id rows = None <-> filter (has_id id) rows = [].
Proof.
  unfold SELECT_memory. induction rows as [|r rows IH]; cbn; [tauto|].
  destruct (has_id id r); [split; discriminate|exact IH].
Qed.

(** ** [delete_memory] *)

(** X1: [delete_memory] of an id that is stored answers with success and
    removes it: [get_memory] no longer finds the id, every memory with
    another id and the biography stay as they were. *)
Theorem delete_memory_removes_only_its_id
    (embed : string -> outcome (list float)) (db : database) (id : string)
    (now now' : string) (row : Memory.row) :
  SELECT_memory id (memories db) = Some row ->
  let db' := after embed (delete_memory_call id) now db in
  reply embed (delete_memory_call id) now db
  = MessageResponse true ("Memory with ID " ++ id ++ " deleted")
  /\ reply embed (get_memory_call id) now' db'
     = MessageResponse false ("Memory with ID " ++ id ++ " not found")
  /\ rows_with_id id db' = []
  /\ (forall id', id' <> id ->
        SELECT_memory id' (memories db') = SELECT_memory id' (memories db))
  /\ user_bio db' = user_bio db.
Proof.
  intros S db'. subst db'.
  unfold reply, after, CallToolRequest, dispatch, delete_memory, DELETE_memory, get_memory.
  assert (C : Nat.eqb (List.length (filter (has_id id) (memories db))) 0 = false).
  { destruct (filter (has_id id) (memories db)) eqn:F; [|reflexivity].
    apply SELECT_Some_rows_with_id in F. congruence. }
  rewrite C. cbn [fst snd memories user_bio].
  rewrite SELECT_after_DELETE. cbn [fst].
  repeat split.
  - apply SELECT_Some_rows_with_id, SELECT_after_DELETE.
  - intros id' N. now apply SELECT_other_after_DELETE.
Qed.

Lemma delete_memory_removes_only_its_id_witness :
  exists row,
    SELECT_memory "n2" (memories fruit_store) = Some row
    /\ reply example_embedder (get_memory_call "n2") "2024-11-01T10:00:01.000Z"
         (after example_embedder (delete_memory_call "n2") "2024-11-01T10:00:00.000Z"
            fruit_store)
       = MessageResponse false "Memory with ID n2 not found"
    /\ SELECT_memory "n3"
         (memories (after example_embedder (delete_memory_call "n2")
                      "2024-11-01T10:00:00.000Z" fruit_store))
       = SELECT_memory "n3" (memories fruit_store).
Proof.
  eexists. split; [vm_compute; reflexivity|].
  destruct (delete_memory_removes_only_its_id example_embedder fruit_store "n2"
              "2024-11-01T10:00:00.000Z" "2024-11-01T10:00:01.000Z" _ eq_refl)
    as (_ & G & _ & O & _).
  split; [exact G|]. apply O. discriminate.
Defined.

(** ** Calls that fail *)

Lemma database_eta (db : database) :
  {| memories := memories db; user_bio := user_bio db |} = db.
Proof. now destruct db. Qed.

(** X2: a call that is not answered with success leaves the database
    exactly as it was.  This covers an id that is not found ([get_memory],
    [delete_memory]), a model that throws ([save_memory], [search_memory]), a
    biography that does not exist and a value that cannot be bound
    ([update_user_bio]). *)
Theorem failed_call_changes_nothing
    (embed : string -> outcome (list float)) (call : tool_call) (now : string)
    (db : database) :
  success (reply embed call now db) = false -> after embed call now db = db.
Proof.
  destruct call as [id text metadata|query n t|id|id|bioFields|field value].
  - unfold reply, after, CallToolRequest, dispatch, save_memory.
    destruct (embed text) as [e|message]; cbn [bind]; [|reflexivity].
    destruct (SELECT_memory id (memories db)) eqn:S.
    + cbn. discriminate.
    + unfold INSERT_memory. cbn [Memory.id]. rewrite SELECT_existsb, S. cbn. discriminate.
  - intros _. apply search_memory_reply.
  - intros _. unfold after, CallToolRequest, dispatch, get_memory.
    now destruct (SELECT_memory id (memories db)).
  - unfold reply, after, CallToolRequest, dispatch, delete_memory, DELETE_memory.
    destruct (filter (has_id id) (memories db)) eqn:F; cbn; [|discriminate].
    intros _. apply SELECT_Some_rows_with_id in F.
    rewrite filter_without_missing by assumption. apply database_eta.
  - destruct (set_user_bio_effect embed db now bioFields) as (row & E & _).
    unfold reply. rewrite E. cbn. discriminate.
  - unfold reply, after, CallToolRequest, dispatch, update_user_bio.
    destruct (user_bio db); [|reflexivity].
    destruct (bind_parameters _ _); cbn; [discriminate|reflexivity].
Qed.

Lemma failed_call_changes_nothing_witness :
  success (reply example_embedder (delete_memory_call "n9") "2024-11-01T10:00:00.000Z"
             fruit_store) = false
  /\ after example_embedder (delete_memory_call "n9") "2024-11-01T10:00:00.000Z" fruit_store
     = fruit_store.
Proof.
  split; [reflexivity|].
  exact (failed_call_changes_nothing example_embedder (delete_memory_call "n9")
           "2024-11-01T10:00:00.000Z" fruit_store eq_refl).
Defined.

(** ** [save_memory] and the other rows *)

Lemma others_after_INSERT (id : string) (r : Memory.row) (rows : list Memory.row) :
  Memory.id r = id ->
  filter (fun x => negb (has_id id x)) (rows ++ [r])
  = filter (fun x => negb (has_id id x)) rows.
Proof.
  intros E. rewrite filter_app. cbn [filter].
  apply (has_id_eq id) in E. rewrite E. cbn. apply app_nil_r.
Qed.

(** X3: [save_memory] writes one id only.  Whether it succeeds or not, the
    rows of every other id are the same rows in the same order, and the
    biography is untouched; the number of rows grows by one when the save
    succeeds on an id that was not stored, and stays the same otherwise. *)
Theorem save_memory_touches_one_id
    (embed : string -> outcome (list float)) (db : database)
    (id text : string) (metadata : option string) (now : string) :
  let call := save_memory_call id text metadata in
  let db' := after embed call now db in
  filter (fun r => negb (has_id id r)) (memories db')
  = filter (fun r => negb (has_id id r)) (memories db)
  /\ user_bio db' = user_bio db
  /\ List.length (memories db')
     = (List.length (memories db)
        + match SELECT_memory id (memories db) with
          | Some _ => 0
          | None => if success (reply embed call now db) then 1 else 0
          end)%nat.
Proof.
  intros call db'. subst call db'.
  unfold reply, after, CallToolRequest, dispatch, save_memory.
  destruct (embed text) as [e|message]; cbn [bind].
  - destruct (SELECT_memory id (memories db)) eqn:S.
    + cbn [fst snd memories user_bio]. rewrite others_after_UPDATE.
      unfold UPDATE_memory. rewrite length_map, Nat.add_0_r. auto.
    + unfold INSERT_memory. cbn [Memory.id]. rewrite SELECT_existsb, S.
      cbn [bind fst snd memories user_bio success].
      rewrite others_after_INSERT by reflexivity.
      rewrite length_app. cbn [List.length]. auto.
  - cbn [fst snd success]. destruct (SELECT_memory id (memories db));
      rewrite Nat.add_0_r; auto.
Qed.

(** X4: what a successful save stores besides the text: the id, the
    embedding of the text as it comes back from its JSON text (finite
    numbers unchanged, everything else zero) and the metadata given, or
    [{}] when none is given, also when the memory had metadata before. *)
Theorem save_memory_replaces_embedding_and_metadata
    (embed : string -> outcome (list float)) (db : database)
    (id text : string) (metadata : option string) (now : string) (e : list float) :
  embed text = Return e ->
  exists row,
    SELECT_memory id (memories (after embed (save_memory_call id text metadata) now db))
    = Some row
    /\ Memory.id row = id
    /\ Memory.embedding row = map JSON_number e
    /\ Forall (fun x => is_finite x = true) (Memory.embedding row)
    /\ Memory.metadata row = Some (match metadata with Some m => m | None => "{}" end).
Proof.
  intros He. unfold after, CallToolRequest, dispatch, save_memory.
  rewrite He. cbn [bind].
  assert (F : Forall (fun x => is_finite x = true) (map JSON_number e)).
  { apply Forall_forall. intros x Hx. apply in_map_iff in Hx as (y & <- & _).
    unfold JSON_number. destruct (is_finite y) eqn:Y; [|reflexivity].
    destruct (is_zero y); [reflexivity|exact Y]. }
  destruct (SELECT_memory id (memories db)) as [old|] eqn:S.
  - cbn [snd memories]. rewrite UPDATE_select, S. cbn [option_map].
    eexists. split; [reflexivity|]. cbn. repeat split; auto.
    apply find_some in S as [_ S]. now apply (has_id_eq id) in S.
  - unfold INSERT_memory. cbn [Memory.id]. rewrite SELECT_existsb, S.
    cbn [bind snd memories].
    eexists. rewrite SELECT_app_new by (assumption || reflexivity).
    split; [reflexivity|]. cbn. repeat split; auto.
Qed.

Lemma save_memory_replaces_embedding_and_metadata_witness :
  example_embedder "apple" = Return [1%float; 0%float] /\
  exists row,
    SELECT_memory "n3"
      (memories (after example_embedder (save_memory_call "n3" "apple" None)
                   "2024-11-01T10:00:00.000Z" fruit_store)) = Some row
    /\ Memory.embedding row = [1%float; 0%float]
    /\ Memory.metadata row = Some "{}".
Proof.
  split; [reflexivity|].
  destruct (save_memory_replaces_embedding_and_metadata example_embedder fruit_store
              "n3" "apple" None "2024-11-01T10:00:00.000Z" _ eq_refl)
    as (row & S & _ & E & _ & M).
  exists row. split; [exact S|]. split; [|exact M].
  rewrite E. vm_compute. reflexivity.
Defined.

(** ** Invariants of a session *)

Lemma run_invariant (embed : string -> outcome (list float)) (P : database -> Prop) :
  (forall call now db, P db -> P (after embed call now db)) ->
  forall calls db, P db -> P (run embed calls db).
Proof.
  intros Step calls. induction calls as [|[call now] calls IH]; intros db H; cbn; auto.
Qed.

Lemma NoDup_ids_one_row (id : string) (rows : list Memory.row) :
  NoDup (map Memory.id rows) -> (List.length (filter (has_id id) rows) <= 1)%nat.
Proof.
  intros N. destruct (SELECT_memory id rows) as [r|] eqn:S.
  - rewrite (SELECT_unique id rows r N S). cbn. lia.
  - apply SELECT_Some_rows_with_id in S. rewrite S. cbn. lia.
Qed.

(** X5: whatever calls the server has handled since the database was
    created, no two memories share an id: for every id there is at most one
    row. *)
Theorem one_row_per_id_always
    (embed : string -> outcome (list float)) (calls : list (tool_call * string)) :
  primary_key (run embed calls empty_database)
  /\ forall id, (List.length (rows_with_id id (run embed calls empty_database)) <= 1)%nat.
Proof.
  assert (PK : primary_key (run embed calls empty_database)).
  { apply run_invariant; [|exact primary_key_empty].
    intros call now db. apply primary_key_preserved. }
  split; [exact PK|]. intros id. now apply NoDup_ids_one_row.
Qed.

Lemma finite_embeddings_preserved (embed : string -> outcome (list float))
    (call : tool_call) (now : string) (db : database) :
  finite_embeddings db -> finite_embeddings (after embed call now db).
Proof.
  intros F. destruct call as [id text metadata|query n t|id|id|bioFields|field value].
  - unfold after, CallToolRequest, dispatch, save_memory.
    destruct (embed text) as [e|message]; cbn [bind]; [|exact F].
    assert (Fe : Forall (fun x => is_finite x = true) (map JSON_number e)).
    { apply Forall_forall. intros x Hx. apply in_map_iff in Hx as (y & <- & _).
      unfold JSON_number. destruct (is_finite y) eqn:Y; [|reflexivity].
      destruct (is_zero y); [reflexivity|exact Y]. }
    unfold finite_embeddings in *.
    destruct (SELECT_memory id (memories db)) eqn:S.
    + cbn [snd memories]. unfold UPDATE_memory.
      rewrite Forall_forall in *. intros m Hm.
      apply in_map_iff in Hm as (old & <- & Hold).
      destruct (has_id id old); [apply Forall_forall; exact Fe|now apply F].
    + unfold INSERT_memory. cbn [Memory.id]. rewrite SELECT_existsb, S.
      cbn [bind snd memories]. apply Forall_app. split; [exact F|].
      now repeat constructor.
  - now rewrite (proj1 (search_memory_reply embed db now query n t)).
  - unfold after, CallToolRequest, dispatch, get_memory.
    now destruct (SELECT_memory id (memories db)).
  - unfold after, CallToolRequest, dispatch, delete_memory, DELETE_memory.
    destruct (Nat.eqb _ 0); cbn [snd]; unfold finite_embeddings in *; cbn [memories];
      rewrite Forall_forall in *; intros m Hm; apply filter_In in Hm; now apply F.
  - destruct (set_user_bio_effect embed db now bioFields) as (row & E & _).
    unfold after. rewrite E. exact F.
  - unfold after, CallToolRequest, dispatch, update_user_bio.
    destruct (user_bio db); [|exact F].
    destruct (bind_parameters _ _); exact F.
Qed.

(** X6: whatever the embedding model returns, a stored embedding never
    holds NaN or an infinity: every number of every stored embedding is
    finite, after any sequence of calls. *)
Theorem stored_embeddings_always_finite
    (embed : string -> outcome (list float)) (calls : list (tool_call * string)) :
  finite_embeddings (run embed calls empty_database).
Proof.
  apply run_invariant; [|constructor].
  intros call now db. apply finite_embeddings_preserved.
Qed.

Lemma SELECT_other_after_save (embed : string -> outcome (list float)) (db : database)
    (id id' text : string) (metadata : option string) (now : string) :
  id' <> id ->
  SELECT_memory id' (memories (after embed (save_memory_call id text metadata) now db))
  = SELECT_memory id' (memories db).
Proof.
  intros N. unfold after, CallToolRequest, dispatch, save_memory.
  destruct (embed text) as [e|message]; cbn [bind]; [|reflexivity].
  destruct (SELECT_memory id (memories db)) eqn:S.
  - cbn [snd memories].
    rewrite <- (SELECT_other_after_DELETE id id' (UPDATE_memory _ _ _ _ _ _)) by assumption.
    rewrite others_after_UPDATE. now apply SELECT_other_after_DELETE.
  - unfold INSERT_memory. cbn [Memory.id]. rewrite SELECT_existsb, S.
    cbn [bind snd memories].
    rewrite <- (SELECT_other_after_DELETE id id' (memories db ++ _)) by assumption.
    rewrite others_after_INSERT by reflexivity. now apply SELECT_other_after_DELETE.
Qed.

Lemma created_at_kept_by_call (embed : string -> outcome (list float)) (call : tool_call)
    (now : string) (db : database) (id : string) (row : Memory.row) :
  SELECT_memory id (memories db) = Some row ->
  call <> delete_memory_call id ->
  exists row',
    SELECT_memory id (memories (after embed call now db)) = Some row'
    /\ Memory.created_at row' = Memory.created_at row.
Proof.
  intros S N. destruct call as [id2 text metadata|query n t|id2|id2|bioFields|field value].
  - destruct (String.eqb_spec id id2) as [<-|D].
    + destruct (embed text) as [e|message] eqn:E.
      * destruct (save_memory_effect embed db id text metadata now e E)
          as (_ & row' & S' & _ & _ & C & _).
        exists row'. rewrite S in C. auto.
      * unfold after, CallToolRequest, dispatch, save_memory. rewrite E. cbn. eauto.
    + rewrite SELECT_other_after_save by assumption. eauto.
  - rewrite (proj1 (search_memory_reply embed db now query n t)). eauto.
  - unfold after, CallToolRequest, dispatch, get_memory.
    destruct (SELECT_memory id2 (memories db)); cbn; eauto.
  - assert (D : id <> id2) by congruence.
    unfold after, CallToolRequest, dispatch, delete_memory, DELETE_memory.
    destruct (Nat.eqb _ 0); cbn [snd memories];
      rewrite SELECT_other_after_DELETE by assumption; eauto.
  - destruct (set_user_bio_effect embed db now bioFields) as (r & E & _).
    unfold after. rewrite E. cbn. eauto.
  - unfold after, CallToolRequest, dispatch, update_user_bio.
    destruct (user_bio db); [|cbn; eauto].
    destruct (bind_parameters _ _); cbn; eauto.
Qed.

(** X7: a memory keeps the [created_at] of its first save: after any
    sequence of calls that does not delete the id, the id is still stored
    and its [created_at] is the same, however often it was saved again. *)
Theorem created_at_never_changes
    (embed : string -> outcome (list float)) (calls : list (tool_call * string))
    (db : database) (id : string) (row : Memory.row) :
  SELECT_memory id (memories db) = Some row ->
  Forall (fun c => fst c <> delete_memory_call id) calls ->
  exists row',
    SELECT_memory id (memories (run embed calls db)) = Some row'
    /\ Memory.created_at row' = Memory.created_at row.
Proof.
  intros S F. revert db row S.
  induction F as [|[call now] calls N _ IH]; intros db row S; cbn [run]; [eauto|].
  destruct (created_at_kept_by_call embed call now db id row S N) as (r1 & S1 & C1).
  destruct (IH _ _ S1) as (r2 & S2 & C2). exists r2. split; [exact S2|congruence].
Qed.

Lemma created_at_never_changes_witness :
  exists row row',
    SELECT_memory "n1" (memories two_apples) = Some row
    /\ SELECT_memory "n1"
         (memories (run example_embedder
                      [(save_memory_call "n1" "banana" None, "2024-11-01T10:00:00.000Z");
                       (delete_memory_call "n2", "2024-11-02T10:00:00.000Z");
                       (save_memory_call "n1" "cherry" None, "2024-11-03T10:00:00.000Z")]
                      two_apples)) = Some row'
    /\ Memory.text row' = "cherry"
    /\ Memory.created_at row' = Memory.created_at row.
Proof.
  eexists. 
  destruct (created_at_never_changes example_embedder
              [(save_memory_call "n1" "banana" None, "2024-11-01T10:00:00.000Z");
               (delete_memory_call "n2", "2024-11-02T10:00:00.000Z");
               (save_memory_call "n1" "cherry" None, "2024-11-03T10:00:00.000Z")]
              two_apples "n1" _ eq_refl)
    as (row' & S & C).
  { repeat constructor; cbn; discriminate. }
  exists row'. split; [reflexivity|]. split; [exact S|]. split; [|exact C].
  vm_compute in S. injection S as <-. reflexivity.
Defined.

(** ** More on [search_memory] *)

From Stdlib Require Import Permutation.

Lemma sort_insert_Permutation {A : Type} (comparefn : A -> A -> float) (x : A) (l : list A) :
  Permutation (sort_insert comparefn x l) (x :: l).
Proof.
  induction l as [|y l IH]; cbn; [reflexivity|].
  destruct (0 <? comparefn x y)%float; [|reflexivity].
  rewrite IH. apply perm_swap.
Qed.

Lemma sort_Permutation {A : Type} (comparefn : A -> A -> float) (l : list A) :
  Permutation (sort comparefn l) l.
Proof.
  unfold sort. induction l as [|x l IH]; cbn [fold_right]; [reflexivity|].
  rewrite sort_insert_Permutation. now constructor.
Qed.

Lemma StronglySorted_app_inv {A : Type} (R : A -> A -> Prop) (l1 l2 : list A) :
  StronglySorted R (l1 ++ l2) -> forall a b, In a l1 -> In b l2 -> R a b.
Proof.
  induction l1 as [|x l1 IH]; cbn; intros S a b Ha Hb; [destruct Ha|].
  inversion S as [|? ? S' F]; subst. destruct Ha as [<-|Ha].
  - rewrite Forall_forall in F. apply F, in_or_app. now right.
  - now apply IH.
Qed.

Lemma scored_candidates (q : list float) (t : float) (rows : list Memory.row) :
  filter (fun result => (t <=? Result.similarity result)%float) (map (scored q) rows)
  = map (scored q) (candidates q t rows).
Proof. unfold candidates. now rewrite filter_map_swap. Qed.

Lemma subsequence_NoDup {A : Type} (l1 l2 : list A) :
  subsequence l1 l2 -> NoDup l2 -> NoDup l1.
Proof.
  induction 1 as [l|x l1 l2 S IH|x l1 l2 S IH]; intros N.
  - constructor.
  - apply NoDup_cons_iff in N as [Nx N]. constructor; [|auto].
    intros H. apply Nx. eapply subsequence_In; eauto.
  - apply NoDup_cons_iff in N as [_ N]. auto.
Qed.

(** The leading lemma of this part: what is returned is a stored memory
    that met the threshold, scored against the query. *)
Lemma search_results_from_candidates (q : list float) (rows : list Memory.row)
    (n t : float) (r : Result.t) :
  In r (search_results q rows n t) ->
  exists m, In m (candidates q t rows) /\ r = scored q m.
Proof.
  unfold search_results, slice0. intros H.
  apply (subsequence_In _ _ _ (subsequence_firstn _ _)), sort_In in H.
  rewrite scored_candidates in H. apply in_map_iff in H as (m & <- & Hm). eauto.
Qed.

Lemma candidates_threshold_monotone (q : list float) (t1 t2 : float)
    (rows : list Memory.row) :
  (t1 <=? t2)%float = true ->
  (List.length (candidates q t2 rows) <= List.length (candidates q t1 rows))%nat.
Proof.
  intros H. unfold candidates. induction rows as [|m rows IH]; cbn [filter]; [lia|].
  destruct (t2 <=? cosineSimilarity q (Memory.embedding m))%float eqn:L2.
  - assert (L1 : (t1 <=? cosineSimilarity q (Memory.embedding m))%float = true).
    { pose proof (leb_not_nan _ _ H) as [A B]. pose proof (leb_not_nan _ _ L2) as [_ C].
      pose proof H as H'. rewrite leb_rank in H', L2 by assumption.
      rewrite leb_rank by assumption.
      apply Z.leb_le in H', L2. apply Z.leb_le. lia. }
    rewrite L1. cbn [List.length]. lia.
  - destruct (t1 <=? cosineSimilarity q (Memory.embedding m))%float; cbn [List.length]; lia.
Qed.

(** X8: for a fixed store, query and [n_results], raising the threshold
    never gives more results. *)
Theorem search_threshold_monotone
    (embed : string -> outcome (list float)) (db : database) (now query : string)
    (n_results t1 t2 : option float) :
  (threshold_or_default t1 <=? threshold_or_default t2)%float = true ->
  (List.length (results_of (reply embed (search_memory_call query n_results t2) now db))
   <= List.length (results_of (reply embed (search_memory_call query n_results t1) now db)))%nat.
Proof.
  intros H.
  destruct (search_memory_reply embed db now query n_results t1)
    as (_ & [(E1 & R1)|[(N1 & m1 & Q1 & R1)|(N1 & q1 & Q1 & R1)]]);
  destruct (search_memory_reply embed db now query n_results t2)
    as (_ & [(E2 & R2)|[(N2 & m2 & Q2 & R2)|(N2 & q2 & Q2 & R2)]]);
    try contradiction; try congruence; rewrite R1, R2; cbn [results_of]; try lia.
  assert (q2 = q1) by congruence. subst q2.
  apply Nat2Z.inj_le. unfold search_results.
  rewrite !slice0_length, !sort_length, !candidates_length.
  set (T1 := threshold_or_default t1) in *. set (T2 := threshold_or_default t2) in *.
  pose proof (candidates_threshold_monotone q1 T1 T2 (memories db) H) as C.
  unfold slice_final. destruct (ToIntegerOrInfinity _) as [|r|]; try lia.
  destruct (Z.ltb_spec r 0); lia.
Qed.

Lemma search_threshold_monotone_witness :
  (threshold_or_default None <=? threshold_or_default (Some 1%float))%float = true /\
  (List.length (results_of (reply example_embedder
                              (search_memory_call "apple" None (Some 1%float))
                              "2024-11-01T10:00:00.000Z" fruit_store))
   <= List.length (results_of (reply example_embedder (search_memory_call "apple" None None)
                                 "2024-11-01T10:00:00.000Z" fruit_store)))%nat.
Proof.
  split; [vm_compute; reflexivity|].
  apply search_threshold_monotone. vm_compute; reflexivity.
Defined.

(** X9: the results are the best matches.  The memories that meet the
    threshold, scored against the query, split into the results and the
    rest, and no result scores below a memory of the rest: [slice] only ever
    leaves out the lowest scores. *)
Theorem search_returns_best_matches
    (embed : string -> outcome (list float)) (db : database) (now query : string)
    (n_results threshold : option float) (q : list float) :
  memories db <> [] ->
  embed query = Return q ->
  let results :=
    results_of (reply embed (search_memory_call query n_results threshold) now db) in
  exists rest,
    Permutation (results ++ rest)
      (map (scored q) (candidates q (threshold_or_default threshold) (memories db)))
    /\ forall r x, In r results -> In x rest -> non_increasing r x.
Proof.
  intros Hne Hq results. subst results.
  destruct (search_memory_reply embed db now query n_results threshold)
    as (_ & [(He & _)|[(_ & message & Hm & _)|(_ & q' & Hq' & ->)]]);
    [contradiction|congruence|].
  assert (q' = q) by congruence. subst q'. cbn [results_of].
  unfold search_results, slice0.
  set (L := sort by_similarity _).
  set (k := Z.to_nat _).
  exists (skipn k L). rewrite firstn_skipn. split.
  - unfold L. rewrite sort_Permutation, scored_candidates. reflexivity.
  - apply StronglySorted_app_inv. rewrite firstn_skipn.
    apply sort_sorted, filter_threshold_number.
Qed.

Lemma search_returns_best_matches_witness :
  memories fruit_store <> [] /\
  example_embedder "apple" = Return [1%float; 0%float] /\
  exists rest,
    Permutation
      (results_of (reply example_embedder
                     (search_memory_call "apple" (Some 1%float) (Some 0%float))
                     "2024-11-01T10:00:00.000Z" fruit_store) ++ rest)
      (map (scored [1%float; 0%float]) (candidates [1%float; 0%float] 0%float
                                          (memories fruit_store)))
    /\ List.length rest = 2%nat.
Proof.
  assert (N : memories fruit_store <> []) by (vm_compute; discriminate).
  split; [exact N|]. split; [reflexivity|].
  destruct (search_returns_best_matches example_embedder fruit_store
              "2024-11-01T10:00:00.000Z" "apple" (Some 1%float) (Some 0%float)
              [1%float; 0%float] N eq_refl) as (rest & P & _).
  exists rest. split; [exact P|].
  apply Permutation_length in P. rewrite length_app in P.
  vm_compute in P. now injection P.
Defined.

Lemma NoDup_map_injective {A B : Type} (f : A -> B) (l : list A) (a b : A) :
  NoDup (map f l) -> In a l -> In b l -> f a = f b -> a = b.
Proof.
  induction l as [|x l IH]; cbn; [tauto|].
  intros N Ha Hb E. apply NoDup_cons_iff in N as [Nx N].
  destruct Ha as [->|Ha], Hb as [->|Hb]; auto.
  - exfalso. apply Nx. rewrite E. now apply in_map.
  - exfalso. apply Nx. rewrite <- E. now apply in_map.
Qed.

(** X10: every result of [search_memory] is a stored memory, with its id,
    text and timestamps, scored against the embedding of the query; its
    score is a number (never NaN) that meets the threshold.  There are no
    more results than stored memories and, under the primary key, no memory
    is returned twice. *)
Theorem search_results_are_stored_memories
    (embed : string -> outcome (list float)) (db : database) (now query : string)
    (n_results threshold : option float) :
  let results :=
    results_of (reply embed (search_memory_call query n_results threshold) now db) in
  (forall r, In r results ->
     exists q m,
       embed query = Return q /\ In m (memories db) /\ r = scored q m
       /\ is_nan (Result.similarity r) = false
       /\ (threshold_or_default threshold <=? Result.similarity r)%float = true)
  /\ (List.length results <= List.length (memories db))%nat
  /\ (primary_key db -> NoDup (map Result.id results)).
Proof.
  intros results. subst results.
  destruct (search_memory_reply embed db now query n_results threshold)
    as (_ & [(_ & ->)|[(_ & message & _ & ->)|(_ & q & Hq & ->)]]); cbn [results_of].
  - split; [intros r []|]. split; [cbn; lia|constructor].
  - split; [intros r []|]. split; [cbn; lia|constructor].
  - split; [|split].
    + intros r Hr.
      pose proof (proj1 (Forall_forall _ _) (search_results_meet_threshold _ _ _ _) r Hr) as T.
      destruct (search_results_from_candidates _ _ _ _ r Hr) as (m & Hm & ->).
      apply filter_In in Hm as [Hm _].
      exists q, m. repeat split; auto. now apply leb_not_nan in T.
    + unfold search_results, slice0. rewrite length_firstn, sort_length, candidates_length.
      unfold candidates. pose proof (filter_length_le
        (fun m => (threshold_or_default threshold
                   <=? cosineSimilarity q (Memory.embedding m))%float) (memories db)).
      lia.
    + intros PK. unfold search_results, slice0.
      eapply subsequence_NoDup; [apply subsequence_map, subsequence_firstn|].
      eapply Permutation_NoDup;
        [apply Permutation_sym, Permutation_map, sort_Permutation|].
      rewrite scored_candidates, map_map. cbn [scored Result.id].
      unfold candidates. now apply NoDup_ids_filter.
Qed.

(** ** Vectors that cannot be compared *)

Lemma Prim2SF_nan_eq (x : float) : Prim2SF x = S754_nan -> x = nan.
Proof. intros H. now apply Prim2SF_inj. Qed.

Lemma add_nan_r (x : float) : (x + nan = nan)%float.
Proof.
  apply Prim2SF_nan_eq. rewrite add_spec. change (Prim2SF nan) with S754_nan.
  now destruct (Prim2SF x) as [[]|[]| |].
Qed.

Lemma add_nan_l (x : float) : (nan + x = nan)%float.
Proof.
  apply Prim2SF_nan_eq. rewrite add_spec. change (Prim2SF nan) with S754_nan.
  reflexivity.
Qed.

Lemma mul_nan_r (x : float) : (x * nan = nan)%float.
Proof.
  apply Prim2SF_nan_eq. rewrite mul_spec. change (Prim2SF nan) with S754_nan.
  now destruct (Prim2SF x).
Qed.

Lemma div_nan_l (x : float) : (nan / x = nan)%float.
Proof.
  apply Prim2SF_nan_eq. rewrite div_spec. change (Prim2SF nan) with S754_nan.
  reflexivity.
Qed.

Lemma dot_nan_stays (b a : list float) (i : nat) :
  reduce_from (dot_step nan PrimFloat.add PrimFloat.mul b) i a nan = nan.
Proof.
  revert i. induction a as [|x a IH]; intros i; cbn [reduce_from]; [reflexivity|].
  unfold dot_step at 2. rewrite add_nan_l. apply IH.
Qed.

Lemma dot_past_the_end (b a : list float) (i : nat) (acc : float) :
  (i <= List.length b < i + List.length a)%nat ->
  reduce_from (dot_step nan PrimFloat.add PrimFloat.mul b) i a acc = nan.
Proof.
  revert i acc. induction a as [|x a IH]; intros i acc H; cbn [List.length] in H; [lia|].
  cbn [reduce_from]. destruct (Nat.le_gt_cases (List.length b) i) as [Over|In_].
  - unfold dot_step at 2, index. rewrite nth_overflow by assumption.
    rewrite mul_nan_r, add_nan_r. apply dot_nan_stays.
  - apply IH. lia.
Qed.

Lemma cosineSimilarity_shorter (a b : list float) :
  (List.length b < List.length a)%nat -> cosineSimilarity a b = nan.
Proof.
  intros H. unfold cosineSimilarity, cosine, reduce.
  rewrite dot_past_the_end by lia. apply div_nan_l.
Qed.

(** A stored memory whose score is NaN is in no answer. *)
Lemma nan_score_not_returned (embed : string -> outcome (list float)) (db : database)
    (now query : string) (n_results threshold : option float) (q : list float)
    (m : Memory.row) :
  primary_key db -> In m (memories db) -> embed query = Return q ->
  is_nan (cosineSimilarity q (Memory.embedding m)) = true ->
  ~ In (Memory.id m)
      (map Result.id
         (results_of (reply embed (search_memory_call query n_results threshold) now db))).
Proof.
  intros PK Hm Hq Hnan Hin.
  apply in_map_iff in Hin as (r & Eid & Hr).
  destruct (search_memory_reply embed db now query n_results threshold)
    as (_ & [(_ & R)|[(_ & message & _ & R)|(_ & q' & Hq' & R)]]);
    rewrite R in Hr; cbn [results_of] in Hr; try destruct Hr.
  assert (q' = q) by congruence. subst q'.
  pose proof (proj1 (Forall_forall _ _) (search_results_meet_threshold _ _ _ _) r Hr) as T.
  apply leb_not_nan in T as [_ T].
  destruct (search_results_from_candidates _ _ _ _ r Hr) as (m' & Hm' & ->).
  apply filter_In in Hm' as [Hm' _]. cbn [scored Result.id Result.similarity] in *.
  assert (m' = m) by (eapply NoDup_map_injective; eauto). subst m'. congruence.
Qed.

(** X11: a stored embedding that is shorter than the embedding of the
    query has no similarity to it: [cosineSimilarity] is NaN, and the memory
    is in no answer of [search_memory], whatever the threshold and the
    limit. *)
Theorem shorter_embedding_never_matches
    (embed : string -> outcome (list float)) (db : database) (now query : string)
    (n_results threshold : option float) (q : list float) (m : Memory.row) :
  primary_key db -> In m (memories db) -> embed query = Return q ->
  (List.length (Memory.embedding m) < List.length q)%nat ->
  cosineSimilarity q (Memory.embedding m) = nan
  /\ ~ In (Memory.id m)
        (map Result.id
           (results_of (reply embed (search_memory_call query n_results threshold) now db))).
Proof.
  intros PK Hm Hq L.
  pose proof (cosineSimilarity_shorter q (Memory.embedding m) L) as E.
  split; [exact E|].
  apply (nan_score_not_returned embed db now query n_results threshold q m); auto.
  now rewrite E.
Qed.

Lemma shorter_embedding_never_matches_witness :
  let embed := fun text : string =>
    Return (if String.eqb text "old model" then [1%float] else [1%float; 0%float]) in
  let db := after embed (save_memory_call "m1" "old model" None)
              "2024-11-01T10:00:00.000Z" empty_database in
  exists m,
    primary_key db /\ In m (memories db)
    /\ (List.length (Memory.embedding m) < List.length [1%float; 0%float])%nat
    /\ cosineSimilarity [1%float; 0%float] (Memory.embedding m) = nan
    /\ ~ In (Memory.id m)
          (map Result.id
             (results_of (reply embed (search_memory_call "query" None (Some (-1)%float))
                            "2024-11-02T10:00:00.000Z" db))).
Proof.
  intros embed db.
  assert (PK : primary_key db) by (apply primary_key_preserved, primary_key_empty).
  eexists. split; [exact PK|]. split; [left; reflexivity|].
  split; [cbn; lia|].
  apply (shorter_embedding_never_matches embed db "2024-11-02T10:00:00.000Z" "query" None
           (Some (-1)%float) [1%float; 0%float]); auto; try (now left); cbn; lia.
Defined.

(** *** Zero vectors *)

Lemma zero_or_nan_mul (x y : float) : zero_or_nan y -> zero_or_nan (x * y)%float.
Proof.
  unfold zero_or_nan. rewrite mul_spec. unfold SF64mul.
  intros [[s ->]| ->]; destruct (Prim2SF x) as [sx|sx| |sx mx ex]; cbn; eauto.
Qed.

Lemma zero_or_nan_mul_l (x y : float) : zero_or_nan x -> zero_or_nan (x * y)%float.
Proof. rewrite float_mul_comm. apply zero_or_nan_mul. Qed.

Lemma zero_or_nan_add (x y : float) :
  zero_or_nan x -> zero_or_nan y -> zero_or_nan (x + y)%float.
Proof.
  unfold zero_or_nan. rewrite add_spec. unfold SF64add.
  intros [[sx ->]| ->] [[sy ->]| ->]; cbn; eauto.
  destruct sx, sy; eauto.
Qed.

Lemma zero_or_nan_div (x y : float) :
  zero_or_nan x -> zero_or_nan y -> (x / y = nan)%float.
Proof.
  unfold zero_or_nan. intros Hx Hy. apply Prim2SF_nan_eq. rewrite div_spec. unfold SF64div.
  destruct Hx as [[sx ->]| ->], Hy as [[sy ->]| ->]; reflexivity.
Qed.

Lemma is_zero_spec (x : float) : is_zero x = true -> exists s, Prim2SF x = S754_zero s.
Proof.
  unfold is_zero. rewrite FloatAxioms.eqb_spec. change (Prim2SF 0) with (S754_zero false).
  destruct (Prim2SF x) as [s|[]| |[] m e]; cbn; intros; try discriminate; eauto.
Qed.

Lemma zero_sqrt (x : float) :
  (exists s, Prim2SF x = S754_zero s) -> exists s, Prim2SF (PrimFloat.sqrt x) = S754_zero s.
Proof. intros [s E]. rewrite sqrt_spec, E. cbn. eauto. Qed.

Lemma zeros_sum_of_squares (b : list float) (i : nat) (acc : float) :
  Forall (fun x => is_zero x = true) b ->
  (exists s, Prim2SF acc = S754_zero s) ->
  exists s, Prim2SF (reduce_from (square_step PrimFloat.add PrimFloat.mul) i b acc)
            = S754_zero s.
Proof.
  intros F. revert i acc. induction F as [|x b Hx _ IH]; intros i acc Hacc; [exact Hacc|].
  cbn [reduce_from]. apply IH. unfold square_step.
  apply is_zero_spec in Hx as [sx Ex]. destruct Hacc as [sa Ea].
  rewrite add_spec, mul_spec, Ex, Ea. cbn. destruct sa, (xorb sx sx); cbn; eauto.
Qed.

Lemma zeros_dot (b a : list float) (i : nat) (acc : float) :
  Forall (fun x => is_zero x = true) b ->
  zero_or_nan acc ->
  zero_or_nan (reduce_from (dot_step nan PrimFloat.add PrimFloat.mul b) i a acc).
Proof.
  intros F. revert i acc. induction a as [|x a IH]; intros i acc Hacc; [exact Hacc|].
  cbn [reduce_from]. apply IH. unfold dot_step.
  apply zero_or_nan_add; [exact Hacc|]. apply zero_or_nan_mul.
  unfold index. destruct (Nat.le_gt_cases (List.length b) i) as [Over|In_].
  - rewrite nth_overflow by assumption. now right.
  - left. apply is_zero_spec.
    exact (proj1 (Forall_forall _ _) F _ (nth_In b nan In_)).
Qed.

Lemma cosineSimilarity_zeros (a b : list float) :
  Forall (fun x => is_zero x = true) b -> cosineSimilarity a b = nan.
Proof.
  intros F. unfold cosineSimilarity, cosine, sum_of_squares, reduce.
  apply zero_or_nan_div.
  - apply zeros_dot; [exact F|]. left. now exists false.
  - apply zero_or_nan_mul. left. apply zero_sqrt.
    apply zeros_sum_of_squares; [exact F|]. now exists false.
Qed.

(** X12: a stored embedding that is all zeros (what a vector of NaN from
    the model is stored as) has no similarity to any query:
    [cosineSimilarity] is NaN, whatever the query vector, and the memory is
    in no answer of [search_memory]. *)
Theorem zero_embedding_never_matches
    (embed : string -> outcome (list float)) (db : database) (now query : string)
    (n_results threshold : option float) (q : list float) (m : Memory.row) :
  primary_key db -> In m (memories db) -> embed query = Return q ->
  Forall (fun x => is_zero x = true) (Memory.embedding m) ->
  cosineSimilarity q (Memory.embedding m) = nan
  /\ ~ In (Memory.id m)
        (map Result.id
           (results_of (reply embed (search_memory_call query n_results threshold) now db))).
Proof.
  intros PK Hm Hq Z.
  pose proof (cosineSimilarity_zeros q (Memory.embedding m) Z) as E.
  split; [exact E|].
  apply (nan_score_not_returned embed db now query n_results threshold q m); auto.
  now rewrite E.
Qed.

Lemma zero_embedding_never_matches_witness :
  let embed := fun text : string =>
    Return (if String.eqb text "degenerate" then [nan; nan] else [1%float; 0%float]) in
  let db := after embed (save_memory_call "m1" "degenerate" None)
              "2024-11-01T10:00:00.000Z" empty_database in
  exists m,
    primary_key db /\ In m (memories db)
    /\ Memory.embedding m = [0%float; 0%float]
    /\ cosineSimilarity [1%float; 0%float] (Memory.embedding m) = nan
    /\ ~ In (Memory.id m)
          (map Result.id
             (results_of (reply embed (search_memory_call "query" None (Some (-1)%float))
                            "2024-11-02T10:00:00.000Z" db))).
Proof.
  intros embed db.
  assert (PK : primary_key db) by (apply primary_key_preserved, primary_key_empty).
  eexists. split; [exact PK|]. split; [left; reflexivity|].
  split; [vm_compute; reflexivity|].
  apply (zero_embedding_never_matches embed db "2024-11-02T10:00:00.000Z" "query" None
           (Some (-1)%float) [1%float; 0%float]); auto; try (now left); repeat constructor.
Defined.

(** ** More on the biography *)

Lemma Bio_get_set (f g : Field.t) (v : option string) (now : string) (r : Bio.row) :
  Bio.get g (Bio.set f v now r) = if Field.eqb f g then v else Bio.get g r.
Proof. destruct g; reflexivity. Qed.

Lemma Field_eqb_refl (f : Field.t) : Field.eqb f f = true.
Proof. now destruct f. Qed.

Lemma Field_eqb_neq (f g : Field.t) : g <> f -> Field.eqb f g = false.
Proof.
  intros N. destruct (Field.eqb f g) eqn:E; [|reflexivity].
  apply Field_eqb_eq in E. congruence.
Qed.

(** X13: on an existing record [update_user_bio] writes one column and the
    time.  For a value that is given, and that is a string or [null] when
    the field is a text field, the call succeeds; the column holds the
    string as it is (text field; [null] clears it) or the JSON text of the
    value (array field, where [null] is stored as the text [null]); the
    seven other columns, [created_at] and the memories are untouched, and
    [updated_at] is the time of the call. *)
Theorem update_user_bio_sets_one_field
    (embed : string -> outcome (list float)) (db : database) (now : string)
    (field : Field.t) (value : js_value) (existing : Bio.row) :
  user_bio db = Some existing ->
  value <> Undefined ->
  (Field.is_array field = false -> Array_isArray value = false) ->
  reply embed (update_user_bio_call field value) now db
  = MessageResponse true ("Updated field: " ++ field_name field)
  /\ exists row,
       after embed (update_user_bio_call field value) now db
       = {| memories := memories db; user_bio := Some row |}
       /\ Bio.get field row = stored_text field value
       /\ (forall g, g <> field -> Bio.get g row = Bio.get g existing)
       /\ Bio.created_at row = Bio.created_at existing
       /\ Bio.updated_at row = now.
Proof.
  intros E U T. unfold reply, after, CallToolRequest, dispatch, update_user_bio.
  rewrite E.
  assert (B : bind_parameters 2
                [if Field.is_array field then JSON_stringify value else value; Str now]
              = Return [stored_text field value; Some now]).
  { unfold stored_text, bind_parameters. destruct (Field.is_array field) eqn:A.
    - destruct value; cbn; congruence.
    - specialize (T eq_refl). destruct value; cbn in *; congruence. }
  rewrite B. cbn [bind fst snd parameter nth]. split; [reflexivity|].
  eexists. split; [reflexivity|]. repeat split.
  - now rewrite Bio_get_set, Field_eqb_refl.
  - intros g N. now rewrite Bio_get_set, Field_eqb_neq.
Qed.

Lemma update_user_bio_sets_one_field_witness :
  exists existing,
    user_bio bio_ana = Some existing
    /\ Null <> Undefined
    /\ exists row,
         after example_embedder (update_user_bio_call Field.idiomas Null)
           "2024-11-01T10:00:00.000Z" bio_ana
         = {| memories := memories bio_ana; user_bio := Some row |}
         /\ Bio.get Field.idiomas row = Some "null"
         /\ Bio.get Field.nombre row = Some "Ana".
Proof.
  eexists. split; [reflexivity|]. split; [discriminate|].
  destruct (update_user_bio_sets_one_field example_embedder bio_ana
              "2024-11-01T10:00:00.000Z" Field.idiomas Null _ eq_refl)
    as (_ & row & A & V & O & _); [discriminate|discriminate|].
  exists row. split; [exact A|]. split; [exact V|].
  rewrite O by discriminate. reflexivity.
Defined.

(** X21: what [update_user_bio] makes of a value that its schema does not
    foresee, on an existing record.  With no [value] at all ([undefined])
    the column is cleared, whatever the field: the driver binds NULL.  On a
    text field an array of one string stores that string, since the driver
    takes an array argument for a list of parameters; an array of any other
    length no longer matches the statement: the call is answered with an
    error and changes nothing. *)
Theorem update_user_bio_unforeseen_value
    (embed : string -> outcome (list float)) (db : database) (now : string)
    (field : Field.t) (existing : Bio.row) :
  user_bio db = Some existing ->
  after embed (update_user_bio_call field Undefined) now db
  = {| memories := memories db; user_bio := Some (Bio.set field None now existing) |}
  /\ (Field.is_array field = false ->
      (forall item,
          after embed (update_user_bio_call field (Arr [item])) now db
          = {| memories := memories db;
               user_bio := Some (Bio.set field (Some item) now existing) |})
      /\ (forall items, List.length items <> 1%nat ->
            isError (reply embed (update_user_bio_call field (Arr items)) now db) = true
            /\ after embed (update_user_bio_call field (Arr items)) now db = db)).
Proof.
  intros E. unfold reply, after, CallToolRequest, dispatch, update_user_bio.
  rewrite E. split.
  - now destruct (Field.is_array field).
  - intros ->. split; [reflexivity|].
    intros items L. unfold bind_parameters.
    destruct items as [|x [|y [|z items]]]; cbn in L; try congruence;
      split; reflexivity.
Qed.

Lemma update_user_bio_unforeseen_value_witness :
  exists existing,
    user_bio bio_ana = Some existing
    /\ user_bio (after example_embedder (update_user_bio_call Field.nombre (Arr ["Bea"]))
                   "2024-11-01T10:00:00.000Z" bio_ana)
       = Some (Bio.set Field.nombre (Some "Bea") "2024-11-01T10:00:00.000Z" existing)
    /\ after example_embedder (update_user_bio_call Field.nombre (Arr ["Bea"; "Ana"]))
         "2024-11-01T10:00:00.000Z" bio_ana
       = bio_ana.
Proof.
  eexists. split; [reflexivity|].
  destruct (update_user_bio_unforeseen_value example_embedder bio_ana
              "2024-11-01T10:00:00.000Z" Field.nombre _ eq_refl) as (_ & T).
  destruct (T eq_refl) as (One & Other). split.
  - now rewrite One.
  - apply (Other ["Bea"; "Ana"]). discriminate.
Defined.

Lemma save_memory_keeps_bio (embed : string -> outcome (list float)) (db : database)
    (id text : string) (metadata : option string) (now : string) :
  user_bio (after embed (save_memory_call id text metadata) now db) = user_bio db.
Proof.
  unfold after, CallToolRequest, dispatch, save_memory.
  destruct (embed text) as [e|message]; cbn [bind]; [|reflexivity].
  destruct (SELECT_memory id (memories db)) eqn:S; [reflexivity|].
  unfold INSERT_memory. cbn [Memory.id]. now rewrite SELECT_existsb, S.
Qed.

Lemma user_bio_kept_by_call (embed : string -> outcome (list float)) (call : tool_call)
    (now : string) (db : database) (existing : Bio.row) :
  user_bio db = Some existing ->
  exists row,
    user_bio (after embed call now db) = Some row
    /\ Bio.created_at row = Bio.created_at existing.
Proof.
  intros E. destruct call as [id text metadata|query n t|id|id|bioFields|field value].
  - rewrite save_memory_keeps_bio. eauto.
  - rewrite (proj1 (search_memory_reply embed db now query n t)). eauto.
  - unfold after, CallToolRequest, dispatch, get_memory.
    destruct (SELECT_memory id (memories db)); cbn; eauto.
  - unfold after, CallToolRequest, dispatch, delete_memory, DELETE_memory.
    destruct (Nat.eqb _ 0); cbn; eauto.
  - destruct (set_user_bio_effect embed db now bioFields) as (row & R & _ & _ & C).
    unfold after. rewrite R. cbn [snd user_bio]. exists row. rewrite E in C. auto.
  - unfold after, CallToolRequest, dispatch, update_user_bio. rewrite E.
    destruct (bind_parameters _ _); cbn; eauto.
Qed.

(** X14: once a biography exists it stays, under calls that keep to the
    schemas of the tools, where [update_user_bio] names one of its eight
    fields (the type of [update_user_bio_call]): no such call removes the
    biography, and its [created_at] is the same after any sequence of such
    calls.  The handler does not look at the name it is given; a call that
    names another column, [created_at] for one, is not among these. *)
Theorem user_bio_persists
    (embed : string -> outcome (list float)) (calls : list (tool_call * string))
    (db : database) (existing : Bio.row) :
  user_bio db = Some existing ->
  exists row,
    user_bio (run embed calls db) = Some row
    /\ Bio.created_at row = Bio.created_at existing.
Proof.
  revert db existing. induction calls as [|[call now] calls IH]; intros db existing E;
    cbn [run]; [eauto|].
  destruct (user_bio_kept_by_call embed call now db existing E) as (r1 & E1 & C1).
  destruct (IH _ _ E1) as (r2 & E2 & C2). exists r2. split; [exact E2|congruence].
Qed.

Lemma user_bio_persists_witness :
  exists existing row,
    user_bio bio_ana = Some existing
    /\ user_bio (run example_embedder
                   [(set_user_bio_call (only Field.nombre Null), "2024-11-01T10:00:00.000Z");
                    (delete_memory_call "n1", "2024-11-02T10:00:00.000Z");
                    (update_user_bio_call Field.timezone (Str "America/Santiago"),
                     "2024-11-03T10:00:00.000Z")] bio_ana) = Some row
    /\ Bio.created_at row = Bio.created_at existing.
Proof.
  eexists.
  destruct (user_bio_persists example_embedder
              [(set_user_bio_call (only Field.nombre Null), "2024-11-01T10:00:00.000Z");
               (delete_memory_call "n1", "2024-11-02T10:00:00.000Z");
               (update_user_bio_call Field.timezone (Str "America/Santiago"),
                "2024-11-03T10:00:00.000Z")] bio_ana _ eq_refl) as (row & E & C).
  exists row. split; [reflexivity|]. split; [exact E|exact C].
Defined.

(** The JSON text of a value is never the empty string. *)
Lemma stored_text_array_field (f : Field.t) (value : js_value) :
  Field.is_array f = true -> value <> Undefined ->
  exists c s, stored_text f value = Some (String c s).
Proof.
  intros A U. unfold stored_text. rewrite A. cbn [orb].
  destruct value as [| |s|items]; cbn [JSON_stringify]; [congruence| | |]; cbn; eauto.
Qed.

(** X15: an array field survives later calls that leave it out.  After
    [set_user_bio] with a value for an array field (an empty array
    included), a second [set_user_bio] without that field leaves in the
    column the JSON text that the first call wrote. *)
Theorem array_field_survives_omission
    (embed : string -> outcome (list float)) (db : database) (now1 now2 : string)
    (fields1 fields2 : BioFields.t) (f : Field.t) :
  Field.is_array f = true ->
  BioFields.get f fields1 <> Undefined ->
  BioFields.get f fields1 <> Null ->
  BioFields.get f fields1 <> Str "null" ->
  BioFields.get f fields2 = Undefined ->
  let db1 := after embed (set_user_bio_call fields1) now1 db in
  let db2 := after embed (set_user_bio_call fields2) now2 db1 in
  exists row1 row2,
    user_bio db1 = Some row1 /\ user_bio db2 = Some row2
    /\ Bio.get f row1 = stored_text f (BioFields.get f fields1)
    /\ Bio.get f row2 = Bio.get f row1
    /\ Bio.get f row2 <> None.
Proof.
  intros A U N S O db1 db2.
  destruct (set_user_bio_effect embed db now1 fields1) as (row1 & E1 & W1 & _).
  assert (B1 : user_bio db1 = Some row1) by (unfold db1, after; now rewrite E1).
  destruct (set_user_bio_effect embed db1 now2 fields2) as (row2 & E2 & W2 & _).
  assert (B2 : user_bio db2 = Some row2) by (unfold db2, after; now rewrite E2).
  exists row1, row2. split; [exact B1|]. split; [exact B2|].
  assert (V1 : Bio.get f row1 = stored_text f (BioFields.get f fields1))
    by (rewrite W1; now apply written_supplied).
  destruct (stored_text_array_field f (BioFields.get f fields1) A U) as (c & s & T).
  split; [exact V1|].
  rewrite W2, written_omitted, B1 by assumption. cbn [previous].
  rewrite V1, T. split; [reflexivity|discriminate].
Qed.

Lemma array_field_survives_omission_witness :
  exists row,
    user_bio (after example_embedder (set_user_bio_call (only Field.nombre (Str "Ana")))
                "2024-11-02T10:00:00.000Z"
                (after example_embedder (set_user_bio_call (only Field.idiomas (Arr [])))
                   "2024-11-01T10:00:00.000Z" empty_database)) = Some row
    /\ Bio.get Field.idiomas row = Some "[]".
Proof.
  destruct (array_field_survives_omission example_embedder empty_database
              "2024-11-01T10:00:00.000Z" "2024-11-02T10:00:00.000Z"
              (only Field.idiomas (Arr [])) (only Field.nombre (Str "Ana")) Field.idiomas)
    as (row1 & row2 & _ & B2 & V1 & V2 & _);
    try reflexivity; try discriminate.
  exists row2. split; [exact B2|]. rewrite V2, V1. reflexivity.
Defined.

(** X16: repeating a [set_user_bio] call changes nothing but the time: the
    eight columns and [created_at] after the second call are those after
    the first. *)
Theorem set_user_bio_twice_is_once
    (embed : string -> outcome (list float)) (db : database) (now1 now2 : string)
    (bioFields : BioFields.t) :
  let db1 := after embed (set_user_bio_call bioFields) now1 db in
  let db2 := after embed (set_user_bio_call bioFields) now2 db1 in
  exists row1 row2,
    user_bio db1 = Some row1 /\ user_bio db2 = Some row2
    /\ (forall f, Bio.get f row2 = Bio.get f row1)
    /\ Bio.created_at row2 = Bio.created_at row1
    /\ Bio.updated_at row2 = now2
    /\ memories db2 = memories db.
Proof.
  intros db1 db2.
  destruct (set_user_bio_effect embed db now1 bioFields) as (row1 & E1 & W1 & _).
  assert (B1 : user_bio db1 = Some row1) by (unfold db1, after; now rewrite E1).
  assert (M1 : memories db1 = memories db) by (unfold db1, after; now rewrite E1).
  destruct (set_user_bio_effect embed db1 now2 bioFields) as (row2 & E2 & W2 & U2 & C2).
  exists row1, row2. split; [exact B1|].
  split; [unfold db2, after; now rewrite E2|].
  split; [|split; [now rewrite C2, B1|split; [exact U2|]]].
  - intros f. rewrite W2, W1, B1.
    destruct (BioFields.get f bioFields) as [| |s|items] eqn:V.
    + rewrite !written_omitted by assumption. cbn [previous]. rewrite W1.
      rewrite written_omitted by assumption.
      now destruct (previous (user_bio db) f) as [[|c s]|].
    + now rewrite !written_cleared by auto.
    + destruct (String.eqb_spec s "null") as [->|N].
      * now rewrite !written_cleared by auto.
      * now rewrite !written_supplied by (rewrite V; congruence).
    + now rewrite !written_supplied by (rewrite V; congruence).
  - unfold db2, after. rewrite E2. exact M1.
Qed.

(** ** [get_user_bio] *)

Section GetBioFacts.
Variable JSON_parse : string -> outcome js_value.
Variables (bioFields : BioFields.t).
Hypothesis typed : schema_typed bioFields.
Hypothesis parse_arrays :
  forall f items,
    BioFields.get f bioFields = Arr items ->
    JSON_parse (json_text (Arr items)) = Return (Arr items).

Lemma text_column_read_back (f : Field.t) :
  Field.is_array f = false ->
  column_value (written bioFields None f) = read_back (BioFields.get f bioFields).
Proof.
  intros A. specialize (typed f).
  destruct (BioFields.get f bioFields) as [| |s|items] eqn:V.
  - now rewrite written_omitted.
  - now rewrite written_cleared by auto.
  - unfold read_back. cbn [is_null is_undefined strict_equals_string orb].
    destruct (String.eqb_spec s "null") as [->|N].
    + now rewrite written_cleared by auto.
    + rewrite written_supplied by (rewrite V; congruence).
      rewrite V. unfold stored_text. rewrite A. reflexivity.
  - congruence.
Qed.

Lemma array_column_read_back (f : Field.t) :
  Field.is_array f = true ->
  parsed_column JSON_parse (written bioFields None f)
  = Return (read_back (BioFields.get f bioFields)).
Proof.
  intros A. specialize (typed f). specialize (parse_arrays f).
  destruct (BioFields.get f bioFields) as [| |s|items] eqn:V.
  - now rewrite written_omitted.
  - now rewrite written_cleared by auto.
  - congruence.
  - rewrite written_supplied by (rewrite V; congruence).
    rewrite V. unfold stored_text. rewrite A. cbn [orb JSON_stringify parsed_column].
    exact (parse_arrays items eq_refl).
Qed.
End GetBioFacts.

(** X17: what [set_user_bio] stores on a new record, [get_user_bio] gives
    back.  For arguments as the schema allows them, and a [JSON.parse] that
    reads back the JSON text of the arrays given, [get_user_bio] after
    [set_user_bio] answers with the biography: each string and each array
    as given, [null] for a field that was left out, given as [null] or
    given as the string ["null"], and both timestamps the time of the
    call. *)
Theorem get_user_bio_after_set_user_bio
    (embed : string -> outcome (list float)) (JSON_parse : string -> outcome js_value)
    (db : database) (now : string) (bioFields : BioFields.t) :
  user_bio db = None ->
  schema_typed bioFields ->
  (forall f items,
      BioFields.get f bioFields = Arr items ->
      JSON_parse (json_text (Arr items)) = Return (Arr items)) ->
  exists bio,
    get_user_bio_reply JSON_parse (after embed (set_user_bio_call bioFields) now db)
    = bio_data bio
    /\ (forall f, BioData.get f bio = read_back (BioFields.get f bioFields))
    /\ BioData.created_at bio = now
    /\ BioData.updated_at bio = now.
Proof.
  intros E T P.
  destruct (set_user_bio_effect embed db now bioFields) as (row & R & W & U & C).
  rewrite E in W, C.
  unfold after. rewrite R. cbn [snd].
  unfold get_user_bio_reply, get_user_bio. cbn [user_bio].
  change (Bio.tecnologias row) with (Bio.get Field.tecnologias row).
  change (Bio.herramientas row) with (Bio.get Field.herramientas row).
  change (Bio.idiomas row) with (Bio.get Field.idiomas row).
  change (Bio.mascotas row) with (Bio.get Field.mascotas row).
  change (Bio.nombre row) with (Bio.get Field.nombre row).
  change (Bio.ocupacion row) with (Bio.get Field.ocupacion row).
  change (Bio.ubicacion row) with (Bio.get Field.ubicacion row).
  change (Bio.timezone row) with (Bio.get Field.timezone row).
  rewrite !W.
  rewrite !(array_column_read_back JSON_parse bioFields T P) by reflexivity.
  rewrite !(text_column_read_back bioFields T) by reflexivity.
  cbn [bind]. eexists. split; [reflexivity|].
  split; [intros f; destruct f; reflexivity|]. cbn. auto.
Qed.

Lemma get_user_bio_after_set_user_bio_witness :
  let bioFields :=
    with_field Field.idiomas (Arr ["es"; "en"]) (only Field.nombre (Str "Ana")) in
  let JSON_parse := fun text : string =>
    if String.eqb text (json_text (Arr ["es"; "en"]))
    then Return (Arr ["es"; "en"]) else Throw "SyntaxError" in
  user_bio two_apples = None /\
  exists bio,
    get_user_bio_reply JSON_parse
      (after example_embedder (set_user_bio_call bioFields) "2024-11-01T10:00:00.000Z"
         two_apples) = bio_data bio
    /\ BioData.get Field.nombre bio = Str "Ana"
    /\ BioData.get Field.idiomas bio = Arr ["es"; "en"]
    /\ BioData.get Field.mascotas bio = Null.
Proof.
  intros bioFields JSON_parse. split; [reflexivity|].
  destruct (get_user_bio_after_set_user_bio example_embedder JSON_parse two_apples
              "2024-11-01T10:00:00.000Z" bioFields eq_refl) as (bio & R & G & _).
  - intros f. destruct f; cbn; auto.
  - intros f items H. destruct f; cbn in H; try discriminate.
    injection H as <-. reflexivity.
  - exists bio. split; [exact R|]. rewrite !G. repeat split; reflexivity.
Defined.

(** ** [list_all_memories] *)

Lemma substring_whole (n : nat) (s : string) :
  (String.length s <= n)%nat -> substring 0 n s = s.
Proof.
  revert n. induction s as [|c s IH]; intros [|n] H; cbn in *; try reflexivity; try lia.
  f_equal. apply IH. lia.
Qed.

Lemma substring_head (n : nat) (s : string) :
  (n <= String.length s)%nat ->
  exists tail, s = (substring 0 n s ++ tail)%string /\ String.length (substring 0 n s) = n.
Proof.
  revert n. induction s as [|c s IH]; intros [|n] H; cbn in *; try lia.
  - exists EmptyString. auto.
  - exists (String c s). auto.
  - destruct (IH n) as (tail & E & L); [lia|].
    exists tail. split; [now rewrite <- E|now rewrite L].
Qed.

Lemma append_length (s1 s2 : string) :
  String.length (s1 ++ s2)%string = (String.length s1 + String.length s2)%nat.
Proof. induction s1 as [|c s1 IH]; cbn; [reflexivity|now rewrite IH]. Qed.

Lemma append_empty (s : string) : (s ++ EmptyString)%string = s.
Proof. induction s as [|c s IH]; cbn; [reflexivity|now rewrite IH]. Qed.

(** X18: the preview of a memory in [list_all_memories] is the whole text
    when the text has at most 100 characters, and otherwise its first 100
    characters followed by three dots: a preview never has more than 103
    characters, and a preview of another length than 103 is the text
    itself. *)
Theorem preview_of_text (text : string) :
  ((String.length text <= 100)%nat -> preview_of text = text)
  /\ ((100 < String.length text)%nat ->
      exists head tail,
        text = (head ++ tail)%string /\ String.length head = 100%nat
        /\ preview_of text = (head ++ "...")%string)
  /\ (String.length (preview_of text) <= 103)%nat
  /\ (String.length (preview_of text) <> 103%nat -> preview_of text = text).
Proof.
  assert (Short : (String.length text <= 100)%nat -> preview_of text = text).
  { intros H. unfold preview_of. rewrite substring_whole by assumption.
    destruct (Nat.ltb_spec 100 (String.length text)); [lia|apply append_empty]. }
  assert (Long : (100 < String.length text)%nat ->
                 exists head tail,
                   text = (head ++ tail)%string /\ String.length head = 100%nat
                   /\ preview_of text = (head ++ "...")%string).
  { intros H. destruct (substring_head 100 text) as (tail & E & L); [lia|].
    exists (substring 0 100 text), tail. split; [exact E|]. split; [exact L|].
    unfold preview_of. destruct (Nat.ltb_spec 100 (String.length text)); [reflexivity|lia]. }
  split; [exact Short|]. split; [exact Long|].
  destruct (Nat.le_gt_cases (String.length text) 100) as [S|L].
  - rewrite (Short S). split; [lia|auto].
  - destruct (Long L) as (head & tail & _ & Lh & ->).
    rewrite append_length, Lh. cbn. split; [lia|intros N; lia].
Qed.

(** X19: [list_all_memories] lists every stored memory once.  With the rows
    as the engine orders them (some arrangement of the rows of the table),
    [count] is the number of stored memories and the length of the list,
    every entry is a stored memory with its id, timestamps and the preview
    of its text, and the ids listed are the stored ids, none twice under the
    primary key. *)
Theorem list_all_memories_lists_every_memory
    (ORDER_BY : list Memory.row -> list Memory.row) (db : database) :
  Permutation (ORDER_BY (memories db)) (memories db) ->
  let answer := list_all_memories ORDER_BY db in
  Listing.count answer = List.length (memories db)
  /\ List.length (Listing.memories answer) = Listing.count answer
  /\ (forall entry, In entry (Listing.memories answer) ->
        exists m, In m (memories db) /\ entry = listed m)
  /\ Permutation (map Listed.id (Listing.memories answer)) (map Memory.id (memories db))
  /\ (primary_key db -> NoDup (map Listed.id (Listing.memories answer))).
Proof.
  intros P answer. subst answer. unfold list_all_memories. cbn [Listing.count Listing.memories].
  assert (Ids : Permutation (map Listed.id (map listed (ORDER_BY (memories db))))
                  (map Memory.id (memories db))).
  { rewrite map_map. cbn [listed Listed.id]. now apply Permutation_map. }
  split; [now apply Permutation_length|]. split; [apply length_map|].
  split; [|split; [exact Ids|]].
  - intros entry H. apply in_map_iff in H as (m & <- & Hm).
    exists m. split; [|reflexivity]. eapply Permutation_in; eauto.
  - intros PK. eapply Permutation_NoDup; [apply Permutation_sym; exact Ids|exact PK].
Qed.

Lemma list_all_memories_lists_every_memory_witness :
  Permutation (rev (memories fruit_store)) (memories fruit_store) /\
  Listing.count (list_all_memories (@rev Memory.row) fruit_store) = 3%nat /\
  map Listed.id (Listing.memories (list_all_memories (@rev Memory.row) fruit_store))
  = ["n3"; "n2"; "n1"].
Proof.
  assert (P : Permutation (rev (memories fruit_store)) (memories fruit_store))
    by (apply Permutation_sym, Permutation_rev).
  split; [exact P|].
  destruct (list_all_memories_lists_every_memory (@rev Memory.row) fruit_store P)
    as (C & _).
  split; [rewrite C; reflexivity|reflexivity].
Defined.

(** ** Deleting, then saving again *)

(** X20: a memory that is deleted and saved again is a new memory: when
    both calls succeed the id has exactly one row, with the new text, and
    its [created_at] and [updated_at] are both the time of the new save, not
    the [created_at] of the deleted row. *)
Theorem delete_then_save_starts_anew
    (embed : string -> outcome (list float)) (db : database)
    (id text : string) (metadata : option string) (now1 now2 : string) :
  primary_key db ->
  let db1 := after embed (delete_memory_call id) now1 db in
  let db2 := after embed (save_memory_call id text metadata) now2 db1 in
  success (reply embed (save_memory_call id text metadata) now2 db1) = true ->
  exists row,
    rows_with_id id db2 = [row]
    /\ Memory.text row = text
    /\ Memory.created_at row = now2
    /\ Memory.updated_at row = now2.
Proof.
  intros PK db1 db2 S.
  apply save_memory_success in S as [e E].
  destruct (save_memory_effect embed db1 id text metadata now2 e E)
    as (_ & row & _ & T & U & C & K).
  destruct (K (primary_key_preserved embed _ now1 db PK)) as [_ R].
  exists row. repeat split; auto.
  rewrite C. unfold db1, after, CallToolRequest, dispatch, delete_memory, DELETE_memory.
  destruct (Nat.eqb _ 0); cbn [snd memories]; now rewrite SELECT_after_DELETE.
Qed.

Lemma delete_then_save_starts_anew_witness :
  primary_key two_apples /\
  exists row,
    rows_with_id "n1"
      (after example_embedder (save_memory_call "n1" "banana" None) "2024-11-02T10:00:00.000Z"
         (after example_embedder (delete_memory_call "n1") "2024-11-01T10:00:00.000Z"
            two_apples)) = [row]
    /\ Memory.text row = "banana"
    /\ Memory.created_at row = "2024-11-02T10:00:00.000Z"
    /\ Memory.updated_at row = "2024-11-02T10:00:00.000Z".
Proof.
  assert (PK : primary_key two_apples).
  { do 2 apply primary_key_preserved. exact primary_key_empty. }
  split; [exact PK|].
  exact (delete_then_save_starts_anew example_embedder two_apples "n1" "banana" None
           "2024-11-01T10:00:00.000Z" "2024-11-02T10:00:00.000Z" PK eq_refl).
Defined.
